(** * LanguageManager (js/language.js): language resolution, translation
      lookup, interpolation and DOM application.

    Conventions of the embedding.
    - A JavaScript string is a [string]: the sequence of its characters
      (the UTF-8 bytes of the text).  All the comparisons the program makes
      are against ASCII literals, and all its separators are ASCII.
    - [this.translations] is whatever [response.json()] produced: any JSON
      value, not only an object.
    - An [async] method is run to completion; a rejected promise is the
      [Rejected] outcome. *)

From Stdlib Require Import Strings.String Strings.Ascii Lists.List Bool.Bool.
From Stdlib Require Import Arith.Arith NArith.NArith ZArith.ZArith micromega.Lia.
Import ListNotations.

Set Warnings "-register-all".

Open Scope list_scope.
Open Scope string_scope.

(* ================================================================== *)
(** ** Strings *)

Module Str.

(** [s.split(sep)] for a one-character separator: never empty, keeps empty
    pieces. *)
Fixpoint split_on (sep : ascii) (s : string) : list string :=
  match s with
  | EmptyString => [EmptyString]
  | String c rest =>
      if Ascii.eqb c sep then EmptyString :: split_on sep rest
      else match split_on sep rest with
           | [] => [String c EmptyString]
           | piece :: pieces => String c piece :: pieces
           end
  end.

(** [s.startsWith(p)] and the remainder of [s] after [p]. *)
Fixpoint strip_prefix (p s : string) : option string :=
  match p with
  | EmptyString => Some s
  | String a p' =>
      match s with
      | EmptyString => None
      | String b s' => if Ascii.eqb a b then strip_prefix p' s' else None
      end
  end.

Definition starts_with (p s : string) : bool :=
  match strip_prefix p s with Some _ => true | None => false end.

(** [s.includes(p)] *)
Fixpoint includes (p s : string) : bool :=
  starts_with p s ||
  match s with
  | EmptyString => false
  | String _ s' => includes p s'
  end.

Fixpoint drop (n : nat) (s : string) : string :=
  match n, s with
  | S n', String _ s' => drop n' s'
  | _, _ => s
  end.

Definition is_empty (s : string) : bool :=
  match s with EmptyString => true | String _ _ => false end.

Definition mem (s : string) (l : list string) : bool :=
  existsb (String.eqb s) l.

End Str.

(* ================================================================== *)
(** ** JavaScript values *)

(** A Number, as far as the program can tell numbers apart: it only tests
    them for truthiness and asks their [typeof]. [Finite neg m e] stands for
    (-1)^neg * m * 2^e. *)
Inductive number : Type :=
| NaN
| Infinity (negative : bool)
| Finite (negative : bool) (mantissa : N) (exponent : Z).

(** What [JSON.parse] builds.  [JObj] keeps the members in the order of the
    text; when a name is repeated the last member is the property. *)
Inductive json : Type :=
| JNull
| JBool (b : bool)
| JNum (x : number)
| JStr (s : string)
| JArr (items : list json)
| JObj (members : list (string * json)).

(** The values [text] can meet: JSON data, [undefined], and what the
    prototype chain of a JSON object or array leads to. *)
Inductive value : Type :=
| VUndefined
| VJson (j : json)
| VFunction
| VObjectPrototype
| VArrayPrototype.

Definition VStr (s : string) : value := VJson (JStr s).

Inductive jstype : Type :=
| TUndefined | TObject | TBoolean | TNumber | TString | TFunction.

Definition jstype_eqb (a b : jstype) : bool :=
  match a, b with
  | TUndefined, TUndefined | TObject, TObject | TBoolean, TBoolean
  | TNumber, TNumber | TString, TString | TFunction, TFunction => true
  | _, _ => false
  end.

(** [typeof v] *)
Definition typeof (v : value) : jstype :=
  match v with
  | VUndefined => TUndefined
  | VJson JNull => TObject
  | VJson (JBool _) => TBoolean
  | VJson (JNum _) => TNumber
  | VJson (JStr _) => TString
  | VJson (JArr _) => TObject
  | VJson (JObj _) => TObject
  | VFunction => TFunction
  | VObjectPrototype => TObject
  | VArrayPrototype => TObject
  end.

(** ToBoolean *)
Definition truthy (v : value) : bool :=
  match v with
  | VUndefined => false
  | VJson JNull => false
  | VJson (JBool b) => b
  | VJson (JNum NaN) => false
  | VJson (JNum (Infinity _)) => true
  | VJson (JNum (Finite _ m _)) => negb (N.eqb m 0)
  | VJson (JStr s) => negb (Str.is_empty s)
  | VJson (JArr _) => true
  | VJson (JObj _) => true
  | VFunction => true
  | VObjectPrototype => true
  | VArrayPrototype => true
  end.

(** The string held by a value known to be a string. *)
Definition string_of (v : value) : string :=
  match v with
  | VJson (JStr s) => s
  | _ => EmptyString
  end.

(** The names of the function-valued properties of [Object.prototype] and of
    [Array.prototype], which differ between engines. *)
Record builtins : Type := {
  object_prototype_methods : list string;
  array_prototype_methods : list string
}.

(** The own property of a parsed JSON object. *)
Fixpoint own_member (k : string) (members : list (string * json)) : option json :=
  match members with
  | [] => None
  | (name, j) :: rest =>
      match own_member k rest with
      | Some later => Some later
      | None => if String.eqb k name then Some j else None
      end
  end.

Definition digit_of (c : ascii) : option N :=
  let n := N_of_ascii c in
  if (N.leb 48 n && N.leb n 57)%bool then Some (n - 48)%N else None.

Fixpoint parse_digits (acc : N) (s : string) : option N :=
  match s with
  | EmptyString => Some acc
  | String c rest =>
      match digit_of c with
      | Some d => parse_digits (10 * acc + d)%N rest
      | None => None
      end
  end.

(** A canonical array index: decimal digits without a leading zero. *)
Definition array_index (k : string) : option N :=
  match k with
  | EmptyString => None
  | String c rest =>
      if (Ascii.eqb c "0" && negb (Str.is_empty rest))%bool then None
      else parse_digits 0 k
  end.

(** The own properties of a parsed JSON array: its elements and [length]. *)
Definition array_own (k : string) (items : list json) : option json :=
  if String.eqb k "length" then
    Some (JNum (Finite false (N.of_nat (List.length items)) 0))
  else
    match array_index k with
    | Some i =>
        if N.ltb i (N.of_nat (List.length items))
        then nth_error items (N.to_nat i) else None
    | None => None
    end.

Definition object_prototype_has (B : builtins) (k : string) : bool :=
  String.eqb k "__proto__" || Str.mem k (object_prototype_methods B).

(** [Object.prototype[k]], where [proto] is what the [__proto__] accessor
    answers for the receiver. *)
Definition object_prototype_get (B : builtins) (k : string) (proto : value) : value :=
  if String.eqb k "__proto__" then proto
  else if Str.mem k (object_prototype_methods B) then VFunction
  else VUndefined.

Definition is_some {A : Type} (o : option A) : bool :=
  match o with Some _ => true | None => false end.

(** [k in v], for the values on which the program evaluates it (those that
    are truthy and of type object); own properties first, then the chain. *)
Definition has_property (B : builtins) (k : string) (v : value) : bool :=
  match v with
  | VJson (JObj members) =>
      is_some (own_member k members) || object_prototype_has B k
  | VJson (JArr items) =>
      is_some (array_own k items) || Str.mem k (array_prototype_methods B)
      || object_prototype_has B k
  | VObjectPrototype => object_prototype_has B k
  | VArrayPrototype =>
      String.eqb k "length" || Str.mem k (array_prototype_methods B)
      || object_prototype_has B k
  | _ => false
  end.

(** [v[k]] *)
Definition get_property (B : builtins) (k : string) (v : value) : value :=
  match v with
  | VJson (JObj members) =>
      match own_member k members with
      | Some j => VJson j
      | None => object_prototype_get B k VObjectPrototype
      end
  | VJson (JArr items) =>
      match array_own k items with
      | Some j => VJson j
      | None =>
          if Str.mem k (array_prototype_methods B) then VFunction
          else object_prototype_get B k VArrayPrototype
      end
  | VObjectPrototype => object_prototype_get B k (VJson JNull)
  | VArrayPrototype =>
      if String.eqb k "length" then VJson (JNum (Finite false 0 0))
      else if Str.mem k (array_prototype_methods B) then VFunction
      else object_prototype_get B k VObjectPrototype
  | _ => VUndefined
  end.

(* ================================================================== *)
(** ** text(key, fallback) *)

(** [fallback || key] *)
Definition fallback_or (fallback key : string) : string :=
  if Str.is_empty fallback then key else fallback.

(** The [for (const k of keys)] loop: [None] is the early return from
    inside the loop, [Some v] the value held when the loop ends. *)
Fixpoint walk (B : builtins) (keys : list string) (v : value) : option value :=
  match keys with
  | [] => Some v
  | k :: rest =>
      if truthy v && jstype_eqb (typeof v) TObject && has_property B k v
      then walk B rest (get_property B k v)
      else None
  end.

Definition text (B : builtins) (translations : json)
    (key : value) (fallback : string) : string :=
  if negb (truthy key) || negb (jstype_eqb (typeof key) TString) then fallback
  else
    let keys := Str.split_on "." (string_of key) in
    match walk B keys (VJson translations) with
    | None => fallback_or fallback (string_of key)
    | Some v =>
        if jstype_eqb (typeof v) TString then string_of v
        else fallback_or fallback (string_of key)
    end.

(** What the specification calls a path of the table: the properties the
    parsed document itself holds, followed segment by segment. *)
Definition own_child (k : string) (j : json) : option json :=
  match j with
  | JObj members => own_member k members
  | JArr items => array_own k items
  | _ => None
  end.

Fixpoint path_value (keys : list string) (j : json) : option json :=
  match keys with
  | [] => Some j
  | k :: rest =>
      match own_child k j with
      | Some child => path_value rest child
      | None => None
      end
  end.

(** The leaf string at a path, when the path exists and ends in a string. *)
Definition leaf_string (keys : list string) (table : json) : option string :=
  match path_value keys table with
  | Some (JStr s) => Some s
  | _ => None
  end.

(** The built-in names of a current engine. *)
Definition es2023 : builtins := {|
  object_prototype_methods :=
    ["constructor"; "hasOwnProperty"; "isPrototypeOf"; "propertyIsEnumerable";
     "toLocaleString"; "toString"; "valueOf"; "__defineGetter__";
     "__defineSetter__"; "__lookupGetter__"; "__lookupSetter__"];
  array_prototype_methods :=
    ["constructor"; "at"; "concat"; "copyWithin"; "entries"; "every"; "fill";
     "filter"; "find"; "findIndex"; "findLast"; "findLastIndex"; "flat";
     "flatMap"; "forEach"; "includes"; "indexOf"; "join"; "keys";
     "lastIndexOf"; "map"; "pop"; "push"; "reduce"; "reduceRight"; "reverse";
     "shift"; "slice"; "some"; "sort"; "splice"; "toLocaleString";
     "toReversed"; "toSorted"; "toSpliced"; "toString"; "unshift"; "values";
     "with"]
|}.

(* ================================================================== *)
(** ** textWithVars(key, variables, fallback) *)

(** An object whose property values are strings, as [variables] is once
    [replace] has converted each value with ToString: the own enumerable
    properties in creation order, one entry per name. *)
Definition jsobject : Type := list (string * string).

Fixpoint obj_get (k : string) (o : jsobject) : option string :=
  match o with
  | [] => None
  | (name, v) :: rest => if String.eqb k name then Some v else obj_get k rest
  end.

(** [o[k] = v] for a name other than [__proto__]. *)
Fixpoint obj_set (k v : string) (o : jsobject) : jsobject :=
  match o with
  | [] => [(k, v)]
  | (name, w) :: rest =>
      if String.eqb k name then (name, v) :: rest
      else (name, w) :: obj_set k v rest
  end.

(** An integer index as property order knows it: canonical, at most
    2^32 - 2. *)
Definition integer_index (k : string) : option N :=
  match array_index k with
  | Some i => if N.leb i 4294967294 then Some i else None
  | None => None
  end.

Fixpoint insert_index (i : N) (k : string) (sorted : list (N * string))
  : list (N * string) :=
  match sorted with
  | [] => [(i, k)]
  | (j, n) :: rest =>
      if N.leb i j then (i, k) :: sorted else (j, n) :: insert_index i k rest
  end.

Fixpoint index_names (names : list string) : list (N * string) :=
  match names with
  | [] => []
  | k :: rest =>
      match integer_index k with
      | Some i => insert_index i k (index_names rest)
      | None => index_names rest
      end
  end.

(** [Object.keys(o)]: integer indices in ascending order, then the other
    names in creation order. *)
Definition object_keys (o : jsobject) : list string :=
  let names := map fst o in
  (map snd (index_names names)
   ++ filter (fun k => negb (is_some (integer_index k))) names)%list.

(** The regular expressions [new RegExp(`{{${varName}}}`, 'g')] the
    embedding interprets. *)
Inductive pattern : Type :=
| Verbatim (name : string)
    (** the characters [{{name}}], one after the other *)
| Braces (lo : N) (hi : option N).
    (** [{] repeated [lo] to [hi] times (greedy), then one [}]: what the
        source [{{n}}], [{{n,}}] or [{{n,m}}] denotes, the inner braces being
        a quantifier of the first one. *)

Definition syntax_character (c : ascii) : bool :=
  existsb (Ascii.eqb c)
    ["^"; "$"; "\"; "."; "*"; "+"; "?"; "("; ")"; "["; "]"; "{"; "}"; "|"]%char.

Fixpoint all_chars (f : ascii -> bool) (s : string) : bool :=
  match s with
  | EmptyString => true
  | String c rest => f c && all_chars f rest
  end.

Definition decimal (s : string) : option N :=
  if Str.is_empty s then None else parse_digits 0 s.

(** The bounds when [{name}] reads as a quantifier. *)
Definition quantifier_bounds (name : string) : option (N * option N) :=
  match Str.split_on "," name with
  | [n] =>
      match decimal n with Some lo => Some (lo, Some lo) | None => None end
  | [n; m] =>
      match decimal n with
      | Some lo =>
          if Str.is_empty m then Some (lo, None)
          else match decimal m with
               | Some hi => Some (lo, Some hi)
               | None => None
               end
      | None => None
      end
  | _ => None
  end.

(** [None]: the pattern is some other regular expression, or none at all
    (the constructor throws a SyntaxError); the embedding does not interpret
    it. *)
Definition compile (varName : string) : option pattern :=
  match quantifier_bounds varName with
  | Some (lo, Some hi) => if N.leb lo hi then Some (Braces lo (Some hi)) else None
  | Some (lo, None) => Some (Braces lo None)
  | None =>
      if all_chars (fun c => negb (syntax_character c)) varName
      then Some (Verbatim varName) else None
  end.

Definition placeholder (name : string) : string := "{{" ++ name ++ "}}".

Fixpoint leading_open (s : string) : nat :=
  match s with
  | String c rest => if Ascii.eqb c "{" then S (leading_open rest) else 0
  | EmptyString => 0
  end.

(** The length of the match that starts at the head of [s], if any. *)
Definition match_at (re : pattern) (s : string) : option nat :=
  match re with
  | Verbatim name =>
      if Str.starts_with (placeholder name) s
      then Some (String.length (placeholder name)) else None
  | Braces lo hi =>
      let run := leading_open s in
      let within :=
        N.leb lo (N.of_nat run) &&
        match hi with Some h => N.leb (N.of_nat run) h | None => true end in
      if within && Str.starts_with "}" (Str.drop run s) then Some (S run)
      else None
  end.

(** GetSubstitution for a match without capture groups: [$$], [$&], [$`]
    and [$'] are expanded, any other [$] stays. *)
Fixpoint expand (template matched before after : string) : string :=
  match template with
  | EmptyString => EmptyString
  | String c tail =>
      if Ascii.eqb c "$" then
        match tail with
        | EmptyString => String c EmptyString
        | String d rest =>
            if Ascii.eqb d "$" then String "$" (expand rest matched before after)
            else if Ascii.eqb d "&" then matched ++ expand rest matched before after
            else if Ascii.eqb d "`" then before ++ expand rest matched before after
            else if Ascii.eqb d "'" then after ++ expand rest matched before after
            else String c (expand tail matched before after)
        end
      else String c (expand tail matched before after)
  end.

(** [s.replace(re, template)] with the [g] flag, scanning [s] from the left;
    [before] is the part of the subject already passed and [skip] the number
    of characters still inside the last match. *)
Fixpoint replace_from (re : pattern) (template before : string) (skip : nat)
    (s : string) : string :=
  match s with
  | EmptyString => EmptyString
  | String c rest =>
      let passed := before ++ String c EmptyString in
      match skip with
      | S k => replace_from re template passed k rest
      | O =>
          match match_at re s with
          | Some (S n) =>
              expand template (substring 0 (S n) s) before (Str.drop (S n) s)
              ++ replace_from re template passed n rest
          | _ => String c (replace_from re template passed 0 rest)
          end
      end
  end.

Definition replace_all (re : pattern) (template s : string) : string :=
  replace_from re template EmptyString 0 s.

(** One turn of the [forEach] callback. *)
Definition interpolate_one (variables : jsobject) (text : option string)
    (varName : string) : option string :=
  match text, compile varName, obj_get varName variables with
  | Some t, Some regex, Some v => Some (replace_all regex v t)
  | _, _, _ => None
  end.

Definition textWithVars (B : builtins) (translations : json)
    (key : value) (variables : jsobject) (fallback : string) : option string :=
  fold_left (interpolate_one variables) (object_keys variables)
            (Some (text B translations key fallback)).

(* ================================================================== *)
(** ** Inline markers *)

(** The longest prefix of [s] without a closing brace. *)
Fixpoint until_close (s : string) : string :=
  match s with
  | EmptyString => EmptyString
  | String c rest =>
      if Ascii.eqb c "}" then EmptyString else String c (until_close rest)
  end.

(** A match of [/\{\{([^}]+)\}\}/] at the head of [s]: the captured key and
    the length of the match. *)
Definition marker_at (s : string) : option (string * nat) :=
  match Str.strip_prefix "{{" s with
  | Some rest =>
      let key := until_close rest in
      if negb (Str.is_empty key)
         && Str.starts_with "}}" (Str.drop (String.length key) rest)
      then Some (key, 4 + String.length key)
      else None
  | None => None
  end.

(** [s.replace(markerRegex, callback)] *)
Fixpoint replace_markers_from (callback : string -> string -> string)
    (skip : nat) (s : string) : string :=
  match s with
  | EmptyString => EmptyString
  | String c rest =>
      match skip with
      | S k => replace_markers_from callback k rest
      | O =>
          match marker_at s with
          | Some (key, S n) =>
              callback (substring 0 (S n) s) key
              ++ replace_markers_from callback n rest
          | _ => String c (replace_markers_from callback 0 rest)
          end
      end
  end.

Definition replace_markers (callback : string -> string -> string)
    (s : string) : string :=
  replace_markers_from callback 0 s.

(* ================================================================== *)
(** ** The page's surroundings: URL, storage, navigator *)

Record environment : Type := {
  hash : string;                       (** [window.location.hash] *)
  search : string;                     (** [window.location.search] *)
  pathname : string;                   (** [window.location.pathname] *)
  preferred_language : option string;  (** [localStorage['preferred-language']] *)
  navigator_language : string          (** [navigator.language] *)
}.

Definition supported_codes : list string := ["en"; "es"].

(** [['en', 'es'].includes(c)] *)
Definition supported (c : string) : bool := Str.mem c supported_codes.

Definition lowercase (c : ascii) : bool :=
  let n := N_of_ascii c in (N.leb 97 n && N.leb n 122)%bool.

(** A match of [/[#&]lang=([a-z]{2})/] at the head of [s]: its capture. *)
Definition lang_marker_at (s : string) : option string :=
  match s with
  | String c rest =>
      if Ascii.eqb c "#" || Ascii.eqb c "&" then
        match Str.strip_prefix "lang=" rest with
        | Some (String x (String y _)) =>
            if lowercase x && lowercase y
            then Some (String x (String y EmptyString)) else None
        | _ => None
        end
      else None
  | EmptyString => None
  end.

(** [hash.match(/[#&]lang=([a-z]{2})/)]: the capture of the leftmost match. *)
Fixpoint hash_match (s : string) : option string :=
  match lang_marker_at s with
  | Some code => Some code
  | None =>
      match s with
      | EmptyString => None
      | String _ rest => hash_match rest
      end
  end.

Module Url.

Definition hex_value (c : ascii) : option N :=
  let n := N_of_ascii c in
  if (N.leb 48 n && N.leb n 57)%bool then Some (n - 48)%N
  else if (N.leb 65 n && N.leb n 70)%bool then Some (n - 55)%N
  else if (N.leb 97 n && N.leb n 102)%bool then Some (n - 87)%N
  else None.

Fixpoint percent_decode (s : string) : string :=
  match s with
  | EmptyString => EmptyString
  | String c tail =>
      if Ascii.eqb c "%" then
        match tail with
        | String h (String l rest) =>
            match hex_value h, hex_value l with
            | Some a, Some b =>
                String (ascii_of_N (16 * a + b)) (percent_decode rest)
            | _, _ => String c (percent_decode tail)
            end
        | _ => String c (percent_decode tail)
        end
      else String c (percent_decode tail)
  end.

Fixpoint plus_to_space (s : string) : string :=
  match s with
  | EmptyString => EmptyString
  | String c rest =>
      String (if Ascii.eqb c "+" then " "%char else c) (plus_to_space rest)
  end.

Definition decode (s : string) : string := percent_decode (plus_to_space s).

(** The part before the first [=] and, if there is one, the part after. *)
Fixpoint split_pair (s : string) : string * string :=
  match s with
  | EmptyString => (EmptyString, EmptyString)
  | String c rest =>
      if Ascii.eqb c "=" then (EmptyString, rest)
      else let (name, v) := split_pair rest in (String c name, v)
  end.

Fixpoint parse_pieces (pieces : list string) : list (string * string) :=
  match pieces with
  | [] => []
  | piece :: rest =>
      if Str.is_empty piece then parse_pieces rest
      else let (name, v) := split_pair piece in
           (decode name, decode v) :: parse_pieces rest
  end.

(** The application/x-www-form-urlencoded parser. *)
Definition parse (query : string) : list (string * string) :=
  parse_pieces (Str.split_on "&" query).

(** [new URLSearchParams(search)]: a leading [?] is dropped. *)
Definition search_params (search : string) : list (string * string) :=
  match Str.strip_prefix "?" search with
  | Some query => parse query
  | None => parse search
  end.

(** [params.get(name)] *)
Fixpoint get (name : string) (params : list (string * string)) : option string :=
  match params with
  | [] => None
  | (n, v) :: rest => if String.eqb n name then Some v else get name rest
  end.

Definition remove (name : string) (params : list (string * string))
  : list (string * string) :=
  filter (fun p => negb (String.eqb (fst p) name)) params.

(** [params.set(name, v)]: the first tuple of that name takes the value and
    the others go; without one, a tuple is appended. *)
Fixpoint set (name v : string) (params : list (string * string))
  : list (string * string) :=
  match params with
  | [] => [(name, v)]
  | (n, w) :: rest =>
      if String.eqb n name then (n, v) :: remove name rest
      else (n, w) :: set name v rest
  end.

Definition hex_digit (n : N) : ascii :=
  match n with
  | 0 => "0" | 1 => "1" | 2 => "2" | 3 => "3" | 4 => "4" | 5 => "5"
  | 6 => "6" | 7 => "7" | 8 => "8" | 9 => "9" | 10 => "A" | 11 => "B"
  | 12 => "C" | 13 => "D" | 14 => "E" | _ => "F"
  end%N%char.

(** Left as it is by the serializer: ASCII letters and digits, [*-._]. *)
Definition unreserved (c : ascii) : bool :=
  let n := N_of_ascii c in
  (N.leb 48 n && N.leb n 57) || (N.leb 65 n && N.leb n 90)
  || (N.leb 97 n && N.leb n 122)
  || Ascii.eqb c "*" || Ascii.eqb c "-" || Ascii.eqb c "." || Ascii.eqb c "_".

Definition encode_char (c : ascii) : string :=
  if Ascii.eqb c " " then "+"
  else if unreserved c then String c EmptyString
  else let n := N_of_ascii c in
       String "%" (String (hex_digit (n / 16)) (String (hex_digit (n mod 16)) EmptyString)).

Fixpoint encode (s : string) : string :=
  match s with
  | EmptyString => EmptyString
  | String c rest => encode_char c ++ encode rest
  end.

(** The application/x-www-form-urlencoded serializer. *)
Fixpoint serialize (params : list (string * string)) : string :=
  match params with
  | [] => EmptyString
  | [(n, v)] => encode n ++ "=" ++ encode v
  | (n, v) :: rest => encode n ++ "=" ++ encode v ++ "&" ++ serialize rest
  end.

(** [location.search] of a URL whose query is the serialized list. *)
Definition search_of (params : list (string * string)) : string :=
  match params with
  | [] => EmptyString
  | _ => "?" ++ serialize params
  end.

End Url.

(* ================================================================== *)
(** ** detectLanguage() *)

(** What each of the five sources proposes. *)
Definition hash_code (e : environment) : option string :=
  hash_match (hash e).

Definition query_code (e : environment) : option string :=
  Url.get "lang" (Url.search_params (search e)).

Definition saved_code (e : environment) : option string :=
  preferred_language e.

(** [path.split('/').filter(segment => segment)], then its first element. *)
Definition path_code (e : environment) : option string :=
  hd_error (filter (fun segment => negb (Str.is_empty segment))
                   (Str.split_on "/" (pathname e))).

(** [navigator.language.split('-')[0]] *)
Definition browser_code (e : environment) : string :=
  hd EmptyString (Str.split_on "-" (navigator_language e)).

(** Method 5: the browser language, or the default. *)
Definition from_browser (e : environment) : string :=
  if supported (browser_code e) then browser_code e else "en".

(** Method 4: the first segment of the path. *)
Definition from_path (e : environment) : string :=
  match path_code e with
  | Some langCode => if supported langCode then langCode else from_browser e
  | None => from_browser e
  end.

(** Method 3: the saved preference. *)
Definition from_storage (e : environment) : string :=
  match saved_code e with
  | Some savedLang =>
      if negb (Str.is_empty savedLang) && supported savedLang then savedLang
      else from_path e
  | None => from_path e
  end.

(** Method 2: the [lang] parameter of the query. *)
Definition from_query (e : environment) : string :=
  match query_code e with
  | Some langParam =>
      if negb (Str.is_empty langParam) && supported langParam then langParam
      else from_storage e
  | None => from_storage e
  end.

(** Method 1: the marker in the fragment; then the others in turn. *)
Definition detectLanguage (e : environment) : string :=
  match hash_code e with
  | Some code => if supported code then code else from_query e
  | None => from_query e
  end.

(** What a source contributes to the resolution: the code it proposes, when
    that code is supported. *)
Definition offer (source : option string) : option string :=
  match source with
  | Some c => if supported c then Some c else None
  | None => None
  end.

(* ================================================================== *)
(** ** The document *)

(** How the browser turns what is assigned to an element into the markup
    its [innerHTML] reads back: [reparse] for an assignment to [innerHTML]
    (parse, then serialize), [escape] for one to [textContent]. *)
Record html : Type := {
  reparse : string -> string;
  escape : string -> string
}.

(** An element that carries one of the markers.  [input_type] is its [type]
    property and [innerHTML] the markup of its content. *)
Record element : Type := {
  tagName : string;
  input_type : string;
  attributes : list (string * string);
  innerHTML : string
}.

Fixpoint attr_get (name : string) (attrs : list (string * string)) : option string :=
  match attrs with
  | [] => None
  | (n, v) :: rest => if String.eqb n name then Some v else attr_get name rest
  end.

Fixpoint attr_set (name v : string) (attrs : list (string * string))
  : list (string * string) :=
  match attrs with
  | [] => [(name, v)]
  | (n, w) :: rest =>
      if String.eqb n name then (n, v) :: rest
      else (n, w) :: attr_set name v rest
  end.

Definition getAttribute (name : string) (el : element) : option string :=
  attr_get name (attributes el).

Definition hasAttribute (name : string) (el : element) : bool :=
  is_some (getAttribute name el).

Definition setAttribute (name v : string) (el : element) : element :=
  {| tagName := tagName el; input_type := input_type el;
     attributes := attr_set name v (attributes el);
     innerHTML := innerHTML el |}.

Definition with_content (markup : string) (el : element) : element :=
  {| tagName := tagName el; input_type := input_type el;
     attributes := attributes el; innerHTML := markup |}.

(** [el.innerHTML = s] *)
Definition set_innerHTML (H : html) (s : string) (el : element) : element :=
  with_content (reparse H s) el.

(** [el.textContent = s] *)
Definition set_textContent (H : html) (s : string) (el : element) : element :=
  with_content (escape H s) el.

(** [el.placeholder = s]: the property reflects the attribute. *)
Definition set_placeholder (s : string) (el : element) : element :=
  setAttribute "placeholder" s el.

(** [x || ''] for a string or [null]. *)
Definition or_empty (x : option string) : string :=
  match x with Some s => s | None => EmptyString end.

(** A [<select>]: the values of its options and the one selected. *)
Record select : Type := {
  options : list string;
  selected : option string
}.

(** [sel.value = v] selects the option of that value, or none. *)
Definition set_value (v : string) (sel : select) : select :=
  {| options := options sel;
     selected := if Str.mem v (options sel) then Some v else None |}.

(** The document: the [lang] of its root, the two selectors if the page has
    them, and the marked elements in document order, each with its own
    content (a marked element inside the content of another one is not
    represented). *)
Record document : Type := {
  lang : string;
  language_select : option select;
  mobile_language_select : option select;
  elements : list element
}.

Definition with_elements (els : list element) (d : document) : document :=
  {| lang := lang d; language_select := language_select d;
     mobile_language_select := mobile_language_select d; elements := els |}.

(** Method 1 of autoTranslateElements, on one element. *)
Definition translate_data_attribute (H : html) (B : builtins)
    (translations : json) (el : element) : element :=
  match getAttribute "data-translate" el with
  | None => el
  | Some key =>
      let fallback := or_empty (getAttribute "data-translate-fallback" el) in
      let t := text B translations (VStr key) fallback in
      if String.eqb (tagName el) "INPUT" && String.eqb (input_type el) "text"
      then set_placeholder t el
      else if hasAttribute "data-translate-html" el then set_innerHTML H t el
      else set_textContent H t el
  end.

(** parseTemplateVariables(element).  An assignment to [variables.__proto__]
    of a string creates no property. *)
Fixpoint template_variables (attrs : list (string * string)) (variables : jsobject)
  : jsobject :=
  match attrs with
  | [] => variables
  | (name, v) :: rest =>
      match Str.strip_prefix "data-var-" name with
      | Some varName =>
          template_variables rest
            (if String.eqb varName "__proto__" then variables
             else obj_set varName v variables)
      | None => template_variables rest variables
      end
  end.

Definition parseTemplateVariables (el : element) : jsobject :=
  template_variables (attributes el) [].

(** Method 2 of autoTranslateElements, on one element. *)
Definition translate_template (H : html) (B : builtins)
    (translations : json) (el : element) : option element :=
  match getAttribute "data-translate-template" el with
  | None => Some el
  | Some template =>
      let variables := parseTemplateVariables el in
      match textWithVars B translations (VStr template) variables EmptyString with
      | Some t =>
          Some (if hasAttribute "data-translate-html" el
                then set_innerHTML H t el else set_textContent H t el)
      | None => None
      end
  end.

(** translateInlineMarkers(), on one element. *)
Definition translate_inline (H : html) (B : builtins)
    (translations : json) (el : element) : element :=
  if hasAttribute "data-translate-inline" el then
    let stored := getAttribute "data-original-content" el in
    let originalContent :=
      if Str.is_empty (or_empty stored) then innerHTML el else or_empty stored in
    let el1 :=
      if Str.is_empty (or_empty stored)
      then setAttribute "data-original-content" originalContent el else el in
    let hasMarkers :=
      Str.includes "{{" originalContent && Str.includes "}}" originalContent in
    if hasMarkers then
      let translatedContent :=
        replace_markers
          (fun matched key => text B translations (VStr key) matched)
          originalContent in
      set_innerHTML H translatedContent el1
    else el1
  else el.

Definition translateInlineMarkers (H : html) (B : builtins)
    (translations : json) (d : document) : document :=
  with_elements (map (translate_inline H B translations) (elements d)) d.

Fixpoint for_each {A : Type} (f : A -> option A) (l : list A) : option (list A) :=
  match l with
  | [] => Some []
  | x :: rest =>
      match f x with
      | Some y =>
          match for_each f rest with
          | Some ys => Some (y :: ys)
          | None => None
          end
      | None => None
      end
  end.

(** [None] when a template uses a variable name whose pattern the embedding
    does not interpret. *)
Definition autoTranslateElements (H : html) (B : builtins)
    (translations : json) (d : document) : option document :=
  let d1 := with_elements
              (map (translate_data_attribute H B translations) (elements d)) d in
  match for_each (translate_template H B translations) (elements d1) with
  | Some els => Some (translateInlineMarkers H B translations (with_elements els d1))
  | None => None
  end.

Definition updateLanguageSelectors (currentLanguage : string) (d : document)
  : document :=
  {| lang := lang d;
     language_select := option_map (set_value currentLanguage) (language_select d);
     mobile_language_select :=
       option_map (set_value currentLanguage) (mobile_language_select d);
     elements := elements d |}.

Definition updatePageLanguage_doc (currentLanguage : string) (d : document)
  : document :=
  {| lang := currentLanguage; language_select := language_select d;
     mobile_language_select := mobile_language_select d;
     elements := elements d |}.

Definition updateContent_doc (H : html) (B : builtins) (currentLanguage : string)
    (translations : json) (d : document) : option document :=
  autoTranslateElements H B translations
    (updateLanguageSelectors currentLanguage d).

(* ================================================================== *)
(** ** The manager and what it acts on *)

Record world : Type := {
  currentLanguage : string;
  translations : json;
  env : environment;
  page : document;
  requests : list string;   (** the URLs handed to [fetch], oldest first *)
  logged : nat;             (** calls of [console.error] *)
  pushed : list string      (** the URLs handed to [history.pushState] *)
}.

(** The server: the JSON document a URL answers with, or [None] when the
    fetch or the parsing of the body fails. *)
Definition server : Type := string -> option json.

(** How an [async] method ends. *)
Inductive completion : Type :=
| Fulfilled (w : world)
| Rejected (w : world).

Definition state_of (c : completion) : world :=
  match c with Fulfilled w => w | Rejected w => w end.

Definition with_language (code : string) (w : world) : world :=
  {| currentLanguage := code; translations := translations w; env := env w;
     page := page w; requests := requests w; logged := logged w;
     pushed := pushed w |}.

Definition with_translations (t : json) (w : world) : world :=
  {| currentLanguage := currentLanguage w; translations := t; env := env w;
     page := page w; requests := requests w; logged := logged w;
     pushed := pushed w |}.

Definition with_page (d : document) (w : world) : world :=
  {| currentLanguage := currentLanguage w; translations := translations w;
     env := env w; page := d; requests := requests w; logged := logged w;
     pushed := pushed w |}.

Definition with_env (e : environment) (w : world) : world :=
  {| currentLanguage := currentLanguage w; translations := translations w;
     env := e; page := page w; requests := requests w; logged := logged w;
     pushed := pushed w |}.

Definition with_request (url : string) (w : world) : world :=
  {| currentLanguage := currentLanguage w; translations := translations w;
     env := env w; page := page w; requests := (requests w ++ [url])%list;
     logged := logged w; pushed := pushed w |}.

Definition with_error_logged (w : world) : world :=
  {| currentLanguage := currentLanguage w; translations := translations w;
     env := env w; page := page w; requests := requests w;
     logged := S (logged w); pushed := pushed w |}.

Definition with_pushed (url : string) (w : world) : world :=
  {| currentLanguage := currentLanguage w; translations := translations w;
     env := env w; page := page w; requests := requests w;
     logged := logged w; pushed := (pushed w ++ [url])%list |}.

Definition language_file (code : string) : string :=
  "languages/" ++ code ++ ".json".

Definition loadTranslations (net : server) (w : world) : completion :=
  let url := language_file (currentLanguage w) in
  let w1 := with_request url w in
  match net url with
  | Some t => Fulfilled (with_translations t w1)
  | None =>
      let w2 := with_error_logged w1 in
      if negb (String.eqb (currentLanguage w2) "en") then
        let w3 := with_language "en" w2 in
        let w4 := with_request "languages/en.json" w3 in
        match net "languages/en.json" with
        | Some t => Fulfilled (with_translations t w4)
        | None => Rejected w4
        end
      else Fulfilled w2
  end.

Definition updatePageLanguage (w : world) : world :=
  with_page (updatePageLanguage_doc (currentLanguage w) (page w)) w.

Definition updateContent (H : html) (B : builtins) (w : world) : option world :=
  match updateContent_doc H B (currentLanguage w) (translations w) (page w) with
  | Some d => Some (with_page d w)
  | None => None
  end.

Definition updateSelectors (w : world) : world :=
  with_page (updateLanguageSelectors (currentLanguage w) (page w)) w.

(** [localStorage.setItem('preferred-language', code)] *)
Definition save_preference (code : string) (e : environment) : environment :=
  {| hash := hash e; search := search e; pathname := pathname e;
     preferred_language := Some code;
     navigator_language := navigator_language e |}.

(** The location after [url.searchParams.set('lang', code)] and
    [history.pushState({}, '', url.toString())]. *)
Definition set_lang_parameter (code : string) (e : environment) : environment :=
  {| hash := hash e;
     search := Url.search_of (Url.set "lang" code (Url.search_params (search e)));
     pathname := pathname e;
     preferred_language := preferred_language e;
     navigator_language := navigator_language e |}.

Definition href (e : environment) : string := pathname e ++ search e ++ hash e.

Definition init (H : html) (B : builtins) (net : server) (w : world)
  : option completion :=
  match loadTranslations net w with
  | Rejected w1 => Some (Rejected w1)
  | Fulfilled w1 =>
      match updateContent H B (updatePageLanguage w1) with
      | Some w2 => Some (Fulfilled w2)
      | None => None
      end
  end.

(** [None] as for [autoTranslateElements]. *)
Definition switchLanguage (H : html) (B : builtins) (net : server)
    (langCode : string) (w : world) : option completion :=
  if String.eqb langCode (currentLanguage w) then Some (Fulfilled w)
  else
    match loadTranslations net (with_language langCode w) with
    | Rejected w1 => Some (Rejected w1)
    | Fulfilled w1 =>
        match updateContent H B (updatePageLanguage w1) with
        | None => None
        | Some w2 =>
            let w3 := updateSelectors w2 in
            let w4 := with_env (save_preference langCode (env w3)) w3 in
            let w5 := with_env (set_lang_parameter langCode (env w4)) w4 in
            Some (Fulfilled (with_pushed (href (env w5)) w5))
        end
    end.

(** [new LanguageManager()] on a page not yet translated. *)
Definition construct (H : html) (B : builtins) (net : server)
    (e : environment) (d : document) : option completion :=
  init H B net
    {| currentLanguage := detectLanguage e; translations := JObj [];
       env := e; page := d; requests := []; logged := 0; pushed := [] |}.

(* ================================================================== *)
(** ** Notions used in the statements *)

(** The string a finished walk ends on, if it ends on one. *)
Definition leaf_of (r : option value) : option string :=
  match r with
  | Some (VJson (JStr s)) => Some s
  | _ => None
  end.

(** Values of the prototype chain, and the primitives met on it: a walk
    that reaches one of them never comes back to a string. *)
Definition off_table (v : value) : bool :=
  match v with
  | VJson (JStr _) | VJson (JArr _) | VJson (JObj _) => false
  | _ => true
  end.

Fixpoint has_char (x : ascii) (s : string) : bool :=
  match s with
  | EmptyString => false
  | String c rest => Ascii.eqb c x || has_char x rest
  end.

Definition no_open (s : string) : bool :=
  all_chars (fun c => negb (Ascii.eqb c "{")) s.

Definition no_dollar (s : string) : bool :=
  all_chars (fun c => negb (Ascii.eqb c "$")) s.

(** The markup the substitution starts from: the stored original when
    there is one, else the present content. *)
Definition original_of (el : element) : string :=
  let stored := or_empty (getAttribute "data-original-content" el) in
  if Str.is_empty stored then innerHTML el else stored.

Definition has_markers (s : string) : bool :=
  Str.includes "{{" s && Str.includes "}}" s.

Definition substituted (H : html) (B : builtins) (translations : json)
    (original : string) : string :=
  reparse H
    (replace_markers (fun matched key => text B translations (VStr key) matched)
       original).

(* ================================================================== *)
(** ** Sample data *)

(** Five environments: in the n-th one the first n-1 sources propose
    nothing supported and every source from the n-th on proposes a code,
    the n-th a different one from those after it. *)
Definition all_sources : environment :=
  {| hash := "#top&lang=es"; search := "?lang=en"; pathname := "/en/index.html";
     preferred_language := Some "en"; navigator_language := "en-US" |}.

Definition from_query_on : environment :=
  {| hash := "#lang=fr"; search := "?page=2&lang=es"; pathname := "/en/";
     preferred_language := Some "en"; navigator_language := "en-US" |}.

Definition from_storage_on : environment :=
  {| hash := ""; search := "?lang=de"; pathname := "/en/";
     preferred_language := Some "es"; navigator_language := "en-US" |}.

Definition from_path_on : environment :=
  {| hash := ""; search := ""; pathname := "/es/index.html";
     preferred_language := Some "fr"; navigator_language := "en-US" |}.

Definition from_browser_on : environment :=
  {| hash := ""; search := ""; pathname := "/index.html";
     preferred_language := None; navigator_language := "es-MX" |}.

Definition only_query (c : string) : environment :=
  {| hash := ""; search := "?lang=" ++ c; pathname := "/";
     preferred_language := None; navigator_language := "fr-FR" |}.

Definition nothing_set : environment :=
  {| hash := ""; search := ""; pathname := "/";
     preferred_language := None; navigator_language := "fr-FR" |}.

(** Serialization of text as a browser does it outside of raw-text
    elements, and markup that is already in serialized form. *)
Fixpoint escape_text (s : string) : string :=
  match s with
  | EmptyString => EmptyString
  | String c rest =>
      if Ascii.eqb c "&" then "&amp;" ++ escape_text rest
      else if Ascii.eqb c "<" then "&lt;" ++ escape_text rest
      else if Ascii.eqb c ">" then "&gt;" ++ escape_text rest
      else String c (escape_text rest)
  end.

Definition plain_html : html := {| reparse := fun s => s; escape := escape_text |}.

Definition en_table : json :=
  JObj [("main", JObj [("banner", JObj [("title", JStr "Loft Interior Design")]);
                       ("welcome", JStr "Welcome {{name}}!");
                       ("search", JStr "Search")])].

Definition es_table : json :=
  JObj [("main", JObj [("banner", JObj [("title", JStr "Diseno de Interiores Loft")]);
                       ("welcome", JStr "Bienvenido {{name}}!");
                       ("search", JStr "Buscar")])].

Definition site : server :=
  fun url =>
    if String.eqb url "languages/en.json" then Some en_table
    else if String.eqb url "languages/es.json" then Some es_table
    else None.

Definition offline : server := fun _ => None.

Definition sample_page : document :=
  {| lang := "en";
     language_select := Some {| options := ["en"; "es"]; selected := Some "en" |};
     mobile_language_select := None;
     elements :=
       [ {| tagName := "H1"; input_type := "";
            attributes := [("data-translate", "main.banner.title")];
            innerHTML := "Loft Interior Design" |};
         {| tagName := "INPUT"; input_type := "text";
            attributes := [("data-translate", "main.search")];
            innerHTML := "" |};
         {| tagName := "P"; input_type := "";
            attributes := [("data-translate-template", "main.welcome");
                           ("data-var-name", "Ana")];
            innerHTML := "" |};
         {| tagName := "DIV"; input_type := "";
            attributes := [("data-translate-inline", "")];
            innerHTML := "<b>{{main.banner.title}}</b> {{main.missing}}" |} ] |}.

Definition sample_world : world :=
  {| currentLanguage := "en"; translations := en_table;
     env := {| hash := ""; search := "?page=2"; pathname := "/index.html";
               preferred_language := None; navigator_language := "en-US" |};
     page := sample_page; requests := ["languages/en.json"]; logged := 0;
     pushed := [] |}.

Definition after_switch_es : world :=
  Eval vm_compute in
    match switchLanguage plain_html es2023 site "es" sample_world with
    | Some (Fulfilled w') => w'
    | _ => sample_world
    end.

(* ================================================================== *)
(** ** The getters, and notions used in further statements *)

Definition getCurrentLanguage (w : world) : string := currentLanguage w.

Definition getTranslations (w : world) : json := translations w.

(** [pieces.join(sep)] *)
Fixpoint join (sep : string) (pieces : list string) : string :=
  match pieces with
  | [] => EmptyString
  | [piece] => piece
  | piece :: rest => piece ++ sep ++ join sep rest
  end.

(** Markup made of stretches of text with a marker [{{key}}] before each
    stretch but the first, each marker rendered by [render]. *)
Fixpoint weave (render : string -> string) (first : string)
    (rest : list (string * string)) : string :=
  match rest with
  | [] => first
  | (key, stretch) :: more => first ++ render key ++ weave render stretch more
  end.

(** The keys of the markers [replace_markers] finds in [s], in order. *)
Fixpoint marker_keys_from (skip : nat) (s : string) : list string :=
  match s with
  | EmptyString => []
  | String c rest =>
      match skip with
      | S k => marker_keys_from k rest
      | O =>
          match marker_at s with
          | Some (key, S n) => key :: marker_keys_from n rest
          | _ => marker_keys_from 0 rest
          end
      end
  end.

Definition marker_keys (s : string) : list string := marker_keys_from 0 s.

(** The key has no leaf string in the table. *)
Definition unresolved (table : json) (key : string) : bool :=
  negb (is_some (leaf_string (Str.split_on "." key) table)).

Definition after_construct : world :=
  Eval vm_compute in
    match construct plain_html es2023 site from_browser_on sample_page with
    | Some (Fulfilled w') => w'
    | _ => sample_world
    end.

(** What the scan keeps of an element: its tag, its type, and every
    attribute but the two it writes. *)
Definition kept (before after : element) : Prop :=
  tagName after = tagName before
  /\ input_type after = input_type before
  /\ forall name, name <> "placeholder" -> name <> "data-original-content" ->
       getAttribute name after = getAttribute name before.

Definition long_marker : environment :=
  {| hash := "#top&lang=english"; search := "?lang=es"; pathname := "/";
     preferred_language := None; navigator_language := "es" |}.

Definition hidden_marker : environment :=
  {| hash := "#lang=fr&lang=en"; search := "?lang=es"; pathname := "/";
     preferred_language := None; navigator_language := "en" |}.

(** The inline marker does not share its element with one of the other
    two markers. *)
Definition inline_alone (el : element) : bool :=
  negb (hasAttribute "data-translate-inline" el)
  || (negb (hasAttribute "data-translate" el)
      && negb (hasAttribute "data-translate-template" el)).

(** The three methods of the scan on one element. *)
Definition scan_element (H : html) (B : builtins) (t : json) (el : element)
  : option element :=
  option_map (translate_inline H B t)
    (translate_template H B t (translate_data_attribute H B t el)).

(* ================================================================== *)
(** ** Resolution when the storage may be denied *)

(** What [localStorage.getItem('preferred-language')] does: it answers with
    the item, or [null] when there is none, or throws a SecurityError when
    the page is denied the use of storage. *)
Inductive storage : Type :=
| Readable (item : option string)
| Denied.

(** The surroundings of the page, the storage in one of its two states. *)
Record ambient : Type := {
  ambient_hash : string;         (** [window.location.hash] *)
  ambient_search : string;       (** [window.location.search] *)
  ambient_pathname : string;     (** [window.location.pathname] *)
  ambient_storage : storage;     (** [localStorage] *)
  ambient_language : string      (** [navigator.language] *)
}.

(** How a call of [detectLanguage] ends. *)
Inductive resolution : Type :=
| Resolved (code : string)
| Raised.

(** The surroundings as the code sees them once [getItem] has answered. *)
Definition seen (a : ambient) (item : option string) : environment :=
  {| hash := ambient_hash a; search := ambient_search a;
     pathname := ambient_pathname a; preferred_language := item;
     navigator_language := ambient_language a |}.

(** Method 3 and what follows: [getItem] is the first statement. *)
Definition storage_onwards (a : ambient) : resolution :=
  match ambient_storage a with
  | Denied => Raised
  | Readable item => Resolved (from_storage (seen a item))
  end.

(** Method 2, which reads the URL only. *)
Definition query_onwards (a : ambient) : resolution :=
  match Url.get "lang" (Url.search_params (ambient_search a)) with
  | Some langParam =>
      if negb (Str.is_empty langParam) && supported langParam
      then Resolved langParam else storage_onwards a
  | None => storage_onwards a
  end.

(** [detectLanguage()], the storage denied or not: method 1, then the
    others in turn. *)
Definition detectLanguage_with_storage (a : ambient) : resolution :=
  match hash_match (ambient_hash a) with
  | Some code => if supported code then Resolved code else query_onwards a
  | None => query_onwards a
  end.

Definition storage_denied : ambient :=
  {| ambient_hash := ""; ambient_search := ""; ambient_pathname := "/";
     ambient_storage := Denied; ambient_language := "en-US" |}.

Definition storage_denied_with_query : ambient :=
  {| ambient_hash := ""; ambient_search := "?lang=es"; ambient_pathname := "/";
     ambient_storage := Denied; ambient_language := "en-US" |}.

Definition storage_empty : ambient :=
  {| ambient_hash := ""; ambient_search := ""; ambient_pathname := "/";
     ambient_storage := Readable None; ambient_language := "fr-FR" |}.

(* ================================================================== *)
(** ** Names that are patterns of their own *)

(** The pattern [{{name}}] matches the characters [{{name}}] and nothing
    else: the name has no character of the regular-expression syntax, and
    [{name}] is not a quantifier (the name is not digits, digits and a comma,
    or digits, a comma and digits). *)
Definition literal_name (name : string) : bool :=
  all_chars (fun c => negb (syntax_character c)) name
  && negb (is_some (quantifier_bounds name)).

(** The markup of the element's content mentions no marker attribute: no
    element with [data-translate], [data-translate-template] or
    [data-translate-inline] lies inside it. *)
Definition no_marker_inside (el : element) : bool :=
  negb (Str.includes "data-translate" (innerHTML el)).

(** The element carries no more than one of the three markers. *)
Definition one_marker (el : element) : bool :=
  let count (present : bool) : nat := if present then 1 else 0 in
  Nat.leb (count (hasAttribute "data-translate" el)
           + count (hasAttribute "data-translate-template" el)
           + count (hasAttribute "data-translate-inline" el)) 1.

(** The paragraph of the sample page, and what the scan with the Spanish
    table makes of it. *)
Definition welcome_paragraph : element :=
  {| tagName := "P"; input_type := "";
     attributes := [("data-translate-template", "main.welcome");
                    ("data-var-name", "Ana")];
     innerHTML := "" |}.

Definition welcome_scanned : element :=
  Eval vm_compute in
    match scan_element plain_html es2023 es_table welcome_paragraph with
    | Some y => y
    | None => welcome_paragraph
    end.

(** The sample page after a scan with the English table. *)
Definition sample_page_en : document :=
  Eval vm_compute in
    match autoTranslateElements plain_html es2023 en_table sample_page with
    | Some d => d
    | None => sample_page
    end.

(* ================================================================== *)
(** * Properties *)

(** ** Lookup *)

Section Lookup.

Variable B : builtins.

Lemma object_prototype_get_off_table k proto :
  off_table proto = true -> off_table (object_prototype_get B k proto) = true.
Proof.
  intros Hp. unfold object_prototype_get.
  destruct (String.eqb k "__proto__"); [exact Hp|].
  destruct (Str.mem k (object_prototype_methods B)); reflexivity.
Qed.

Lemma get_property_off_table k v :
  off_table v = true -> off_table (get_property B k v) = true.
Proof.
  destruct v as [|j| | |]; simpl; intros Hv; try reflexivity.
  - destruct j; simpl in *; try reflexivity; discriminate.
  - apply object_prototype_get_off_table. reflexivity.
  - destruct (String.eqb k "length"); [reflexivity|].
    destruct (Str.mem k (array_prototype_methods B)); [reflexivity|].
    apply object_prototype_get_off_table. reflexivity.
Qed.

Lemma walk_off_table keys : forall v,
  off_table v = true -> leaf_of (walk B keys v) = None.
Proof.
  induction keys as [|k rest IH]; intros v Hv.
  - destruct v as [|j| | |]; try reflexivity.
    destruct j; try reflexivity; discriminate.
  - simpl.
    destruct (truthy v && jstype_eqb (typeof v) TObject && has_property B k v);
      [|reflexivity].
    apply IH, get_property_off_table, Hv.
Qed.

Lemma walk_inherited k rest proto :
  off_table proto = true ->
  leaf_of (walk B rest (object_prototype_get B k proto)) = None.
Proof.
  intros Hp. apply walk_off_table, object_prototype_get_off_table, Hp.
Qed.

(** The walk of the code and the path of the table end on the same leaf:
    what the walk finds through the prototype chain is never a string. *)
Lemma walk_leaf keys : forall j,
  leaf_of (walk B keys (VJson j)) = leaf_string keys j.
Proof.
  induction keys as [|k rest IH]; intros j.
  - unfold leaf_string. simpl. destruct j; reflexivity.
  - unfold leaf_string in *. simpl.
    destruct j as [|b|x|s|items|members]; simpl; try reflexivity;
      try (rewrite !andb_false_r; reflexivity).
    + destruct (array_own k items) as [child|] eqn:Hown; simpl.
      * apply IH.
      * destruct (Str.mem k (array_prototype_methods B)); simpl.
        -- apply walk_off_table. reflexivity.
        -- destruct (object_prototype_has B k); [|reflexivity].
           apply walk_inherited. reflexivity.
    + destruct (own_member k members) as [child|] eqn:Hown; simpl.
      * apply IH.
      * destruct (object_prototype_has B k); [|reflexivity].
        apply walk_inherited. reflexivity.
Qed.

Lemma text_of_leaf translations key fallback :
  key <> EmptyString ->
  text B translations (VStr key) fallback =
  match leaf_of (walk B (Str.split_on "." key) (VJson translations)) with
  | Some s => s
  | None => fallback_or fallback key
  end.
Proof.
  intros Hkey. unfold text. simpl.
  destruct key as [|c key']; [contradiction|]. simpl negb. simpl orb.
  cbv iota.
  destruct (walk B (Str.split_on "." (String c key')) (VJson translations))
    as [v|]; [|reflexivity].
  destruct v as [|j| | |]; try reflexivity.
  destruct j; reflexivity.
Qed.

End Lookup.

(** C2, as the code has it: for every table and every non-empty key, [text]
    returns the leaf string when the table holds the exact nested path of the
    key's segments and that path ends in a string; in every other case (a
    segment is absent, or the path ends in something that is not a string) it
    returns the fallback, or the key itself when the fallback is empty. *)
Theorem text_resolves_path :
  forall (B : builtins) (translations : json) (key fallback : string),
    key <> EmptyString ->
    text B translations (VStr key) fallback =
    match leaf_string (Str.split_on "." key) translations with
    | Some s => s
    | None => if Str.is_empty fallback then key else fallback
    end.
Proof.
  intros B translations key fallback Hkey.
  rewrite (text_of_leaf B translations key fallback Hkey).
  rewrite walk_leaf. reflexivity.
Qed.

Lemma text_resolves_path_witness :
  text es2023 (JObj [("a", JObj [("b", JObj [("c", JStr "leaf")])])])
       (VStr "a.b.c") "none"
  = match leaf_string (Str.split_on "." "a.b.c")
            (JObj [("a", JObj [("b", JObj [("c", JStr "leaf")])])]) with
    | Some s => s
    | None => if Str.is_empty "none" then "a.b.c" else "none"
    end.
Proof.
  apply (text_resolves_path es2023
           (JObj [("a", JObj [("b", JObj [("c", JStr "leaf")])])])
           "a.b.c" "none").
  discriminate.
Defined.

(** C2 as stated fails on the empty key: a table may hold a member whose
    name is the empty string, the path of the key [""] then ends in a
    string, and [text] still answers with the fallback. *)
Lemma text_empty_key_ignores_leaf :
  leaf_string (Str.split_on "." "") (JObj [("", JStr "hello")]) = Some "hello"
  /\ text es2023 (JObj [("", JStr "hello")]) (VStr "") "" <> "hello".
Proof. split; [reflexivity | discriminate]. Qed.

(** C9: with an empty key or a key that is not a string, [text] returns the
    fallback as it was given (the empty string by default), whatever the
    table holds. *)
Theorem text_malformed_key :
  forall (B : builtins) (translations : json) (key : value) (fallback : string),
    key = VStr EmptyString \/ typeof key <> TString ->
    text B translations key fallback = fallback.
Proof.
  intros B translations key fallback [-> | Hty].
  - reflexivity.
  - unfold text.
    destruct key as [|j| | |]; try reflexivity.
    destruct j; try reflexivity;
      try (simpl; rewrite orb_true_r; reflexivity).
    exfalso. apply Hty. reflexivity.
Qed.

Lemma text_malformed_key_witness :
  text es2023 (JObj [("5", JStr "five")]) (VJson (JNum (Finite false 5 0))) "fb"
  = "fb".
Proof.
  apply (text_malformed_key es2023 (JObj [("5", JStr "five")])
           (VJson (JNum (Finite false 5 0))) "fb").
  right. discriminate.
Defined.

(* ================================================================== *)
(** ** Language resolution *)

Lemma supported_cases c : supported c = true -> c = "en" \/ c = "es".
Proof.
  unfold supported, supported_codes, Str.mem. simpl.
  destruct (String.eqb c "en") eqn:Hen.
  - intros _. left. apply String.eqb_eq, Hen.
  - destruct (String.eqb c "es") eqn:Hes; [|discriminate].
    intros _. right. apply String.eqb_eq, Hes.
Qed.

Lemma supported_not_empty c : supported c = true -> Str.is_empty c = false.
Proof. intros H. destruct (supported_cases c H); subst; reflexivity. Qed.

Lemma offer_some source c : offer source = Some c -> source = Some c /\ supported c = true.
Proof.
  destruct source as [d|]; simpl; [|discriminate].
  destruct (supported d) eqn:Hd; [|discriminate].
  intros [= ->]. split; [reflexivity | exact Hd].
Qed.

Lemma offer_none source d : offer source = None -> source = Some d -> supported d = false.
Proof.
  intros Hoff ->. simpl in Hoff. destruct (supported d); [discriminate | reflexivity].
Qed.

(** Each method, when the sources before it stay silent. *)
Lemma from_browser_offer e c :
  offer (Some (browser_code e)) = Some c -> from_browser e = c.
Proof.
  intros H. apply offer_some in H as [[= <-] Hs].
  unfold from_browser. rewrite Hs. reflexivity.
Qed.

Lemma from_browser_default e :
  offer (Some (browser_code e)) = None -> from_browser e = "en".
Proof.
  intros H. unfold from_browser.
  rewrite (offer_none _ _ H eq_refl). reflexivity.
Qed.

Lemma from_path_offer e c : offer (path_code e) = Some c -> from_path e = c.
Proof.
  intros H. apply offer_some in H as [Hp Hs].
  unfold from_path. rewrite Hp, Hs. reflexivity.
Qed.

Lemma from_path_silent e : offer (path_code e) = None -> from_path e = from_browser e.
Proof.
  intros H. unfold from_path.
  destruct (path_code e) as [d|] eqn:Hp; [|reflexivity].
  rewrite (offer_none _ d H eq_refl). reflexivity.
Qed.

Lemma from_storage_offer e c : offer (saved_code e) = Some c -> from_storage e = c.
Proof.
  intros H. apply offer_some in H as [Hp Hs].
  unfold from_storage. rewrite Hp, Hs, (supported_not_empty c Hs). reflexivity.
Qed.

Lemma from_storage_silent e : offer (saved_code e) = None -> from_storage e = from_path e.
Proof.
  intros H. unfold from_storage.
  destruct (saved_code e) as [d|] eqn:Hp; [|reflexivity].
  rewrite (offer_none _ d H eq_refl), andb_false_r. reflexivity.
Qed.

Lemma from_query_offer e c : offer (query_code e) = Some c -> from_query e = c.
Proof.
  intros H. apply offer_some in H as [Hp Hs].
  unfold from_query. rewrite Hp, Hs, (supported_not_empty c Hs). reflexivity.
Qed.

Lemma from_query_silent e : offer (query_code e) = None -> from_query e = from_storage e.
Proof.
  intros H. unfold from_query.
  destruct (query_code e) as [d|] eqn:Hp; [|reflexivity].
  rewrite (offer_none _ d H eq_refl), andb_false_r. reflexivity.
Qed.

Lemma detect_offer e c : offer (hash_code e) = Some c -> detectLanguage e = c.
Proof.
  intros H. apply offer_some in H as [Hp Hs].
  unfold detectLanguage. rewrite Hp, Hs. reflexivity.
Qed.

Lemma detect_silent e : offer (hash_code e) = None -> detectLanguage e = from_query e.
Proof.
  intros H. unfold detectLanguage.
  destruct (hash_code e) as [d|] eqn:Hp; [|reflexivity].
  rewrite (offer_none _ d H eq_refl). reflexivity.
Qed.

(** C3: the five sources are consulted in the order fragment, query
    parameter, saved preference, first path segment, browser language: the
    result is the supported code of the first source that has one, whatever
    the sources after it say. *)
Theorem detectLanguage_priority :
  forall (e : environment) (c : string),
    (offer (hash_code e) = Some c -> detectLanguage e = c)
    /\ (offer (hash_code e) = None ->
        offer (query_code e) = Some c -> detectLanguage e = c)
    /\ (offer (hash_code e) = None -> offer (query_code e) = None ->
        offer (saved_code e) = Some c -> detectLanguage e = c)
    /\ (offer (hash_code e) = None -> offer (query_code e) = None ->
        offer (saved_code e) = None ->
        offer (path_code e) = Some c -> detectLanguage e = c)
    /\ (offer (hash_code e) = None -> offer (query_code e) = None ->
        offer (saved_code e) = None -> offer (path_code e) = None ->
        offer (Some (browser_code e)) = Some c -> detectLanguage e = c).
Proof.
  intros e c. repeat split.
  - apply detect_offer.
  - intros Hh Hq. rewrite (detect_silent e Hh). apply from_query_offer, Hq.
  - intros Hh Hq Hs.
    rewrite (detect_silent e Hh), (from_query_silent e Hq).
    apply from_storage_offer, Hs.
  - intros Hh Hq Hs Hp.
    rewrite (detect_silent e Hh), (from_query_silent e Hq),
      (from_storage_silent e Hs).
    apply from_path_offer, Hp.
  - intros Hh Hq Hs Hp Hb.
    rewrite (detect_silent e Hh), (from_query_silent e Hq),
      (from_storage_silent e Hs), (from_path_silent e Hp).
    apply from_browser_offer, Hb.
Qed.

Lemma detectLanguage_priority_witness :
  detectLanguage all_sources = "es"
  /\ detectLanguage from_query_on = "es"
  /\ detectLanguage from_storage_on = "es"
  /\ detectLanguage from_path_on = "es"
  /\ detectLanguage from_browser_on = "es".
Proof.
  split; [|split; [|split; [|split]]].
  - apply (proj1 (detectLanguage_priority all_sources "es")). reflexivity.
  - apply (proj1 (proj2 (detectLanguage_priority from_query_on "es")));
      reflexivity.
  - apply (proj1 (proj2 (proj2 (detectLanguage_priority from_storage_on "es"))));
      reflexivity.
  - apply (proj1 (proj2 (proj2 (proj2
             (detectLanguage_priority from_path_on "es")))));
      reflexivity.
  - apply (proj2 (proj2 (proj2 (proj2
             (detectLanguage_priority from_browser_on "es")))));
      reflexivity.
Defined.

Lemma from_browser_supported e : supported (from_browser e) = true.
Proof.
  unfold from_browser.
  destruct (supported (browser_code e)) eqn:H; [exact H | reflexivity].
Qed.

Lemma from_path_supported e : supported (from_path e) = true.
Proof.
  unfold from_path. destruct (path_code e) as [d|].
  - destruct (supported d) eqn:H; [exact H | apply from_browser_supported].
  - apply from_browser_supported.
Qed.

Lemma from_storage_supported e : supported (from_storage e) = true.
Proof.
  unfold from_storage. destruct (saved_code e) as [d|].
  - destruct (negb (Str.is_empty d) && supported d) eqn:H.
    + apply andb_true_iff in H. apply H.
    + apply from_path_supported.
  - apply from_path_supported.
Qed.

Lemma from_query_supported e : supported (from_query e) = true.
Proof.
  unfold from_query. destruct (query_code e) as [d|].
  - destruct (negb (Str.is_empty d) && supported d) eqn:H.
    + apply andb_true_iff in H. apply H.
    + apply from_storage_supported.
  - apply from_storage_supported.
Qed.

Lemma query_code_of_lang e c :
  supported c = true -> search e = "?lang=" ++ c -> query_code e = Some c.
Proof.
  intros Hc Hs. unfold query_code. rewrite Hs.
  destruct (supported_cases c Hc); subst c; reflexivity.
Qed.

(** With a storage that answers (an item or [null]), resolution gives a
    supported code; the default when none of the five sources proposes a
    supported code; for a supported code [c], a URL without fragment whose
    query is [?lang=c] resolves to [c]; and with no fragment, no query, no
    saved preference, an empty path and a browser language that is not
    supported, the result is the default. *)
Theorem detectLanguage_total :
  forall e : environment,
    supported (detectLanguage e) = true
    /\ (offer (hash_code e) = None -> offer (query_code e) = None ->
        offer (saved_code e) = None -> offer (path_code e) = None ->
        offer (Some (browser_code e)) = None -> detectLanguage e = "en")
    /\ (forall c, supported c = true -> hash e = "" ->
        search e = "?lang=" ++ c -> detectLanguage e = c)
    /\ (hash e = "" -> search e = "" -> preferred_language e = None ->
        pathname e = "/" -> supported (browser_code e) = false ->
        detectLanguage e = "en").
Proof.
  intros e. repeat split.
  - unfold detectLanguage. destruct (hash_code e) as [d|].
    + destruct (supported d) eqn:H; [exact H | apply from_query_supported].
    + apply from_query_supported.
  - intros Hh Hq Hs Hp Hb.
    rewrite (detect_silent e Hh), (from_query_silent e Hq),
      (from_storage_silent e Hs), (from_path_silent e Hp).
    apply from_browser_default, Hb.
  - intros c Hc Hh Hs.
    assert (Hno : offer (hash_code e) = None)
      by (unfold hash_code; rewrite Hh; reflexivity).
    rewrite (detect_silent e Hno). apply from_query_offer.
    rewrite (query_code_of_lang e c Hc Hs). simpl. rewrite Hc. reflexivity.
  - intros Hh Hs Hp Hpath Hb.
    unfold detectLanguage, hash_code, from_query, query_code, from_storage,
      saved_code, from_path, path_code, from_browser.
    rewrite Hh, Hs, Hp, Hpath, Hb. reflexivity.
Qed.

Lemma detectLanguage_total_witness :
  detectLanguage (only_query "es") = "es"
  /\ detectLanguage (only_query "en") = "en"
  /\ detectLanguage nothing_set = "en"
  /\ detectLanguage
       {| hash := "#lang=de"; search := "?lang=it"; pathname := "/pt/";
          preferred_language := Some "ja"; navigator_language := "fr-FR" |}
     = "en".
Proof.
  split; [|split; [|split]].
  - apply (proj1 (proj2 (proj2 (detectLanguage_total (only_query "es")))) "es");
      reflexivity.
  - apply (proj1 (proj2 (proj2 (detectLanguage_total (only_query "en")))) "en");
      reflexivity.
  - apply (proj2 (proj2 (proj2 (detectLanguage_total nothing_set))));
      reflexivity.
  - apply (proj1 (proj2 (detectLanguage_total _))); reflexivity.
Defined.

(* ================================================================== *)
(** ** Inline markers *)

Lemma attr_get_set_same name v attrs :
  attr_get name (attr_set name v attrs) = Some v.
Proof.
  induction attrs as [|[n w] rest IH]; simpl.
  - rewrite String.eqb_refl. reflexivity.
  - destruct (String.eqb n name) eqn:E; simpl; rewrite E; [reflexivity | exact IH].
Qed.

Lemma attr_get_set_other name other v attrs :
  name <> other ->
  attr_get other (attr_set name v attrs) = attr_get other attrs.
Proof.
  intros Hne. induction attrs as [|[n w] rest IH]; simpl.
  - destruct (String.eqb name other) eqn:E; [|reflexivity].
    apply String.eqb_eq in E. contradiction.
  - destruct (String.eqb n name) eqn:E; simpl.
    + apply String.eqb_eq in E. subst n.
      destruct (String.eqb name other) eqn:E'; [|reflexivity].
      apply String.eqb_eq in E'. contradiction.
    + rewrite IH. reflexivity.
Qed.

Lemma attr_set_twice name v attrs :
  attr_set name v (attr_set name v attrs) = attr_set name v attrs.
Proof.
  induction attrs as [|[n w] rest IH]; simpl.
  - rewrite String.eqb_refl. reflexivity.
  - destruct (String.eqb n name) eqn:E; simpl; rewrite E.
    + reflexivity.
    + rewrite IH. reflexivity.
Qed.

Lemma includes_not_empty p s :
  Str.is_empty p = false -> Str.includes p s = true -> Str.is_empty s = false.
Proof.
  intros Hp Hs. destruct s; [|reflexivity].
  destruct p; [discriminate|]. simpl in Hs. discriminate.
Qed.

Section Inline.

Variables (H : html) (B : builtins) (translations : json).

(** One scan, spelled out by cases. *)
Lemma translate_inline_cases el :
  hasAttribute "data-translate-inline" el = true ->
  translate_inline H B translations el =
  let el1 :=
    if Str.is_empty (or_empty (getAttribute "data-original-content" el))
    then setAttribute "data-original-content" (original_of el) el else el in
  if has_markers (original_of el)
  then with_content (substituted H B translations (original_of el)) el1 else el1.
Proof.
  intros Hflag. unfold translate_inline. rewrite Hflag. reflexivity.
Qed.

Lemma flag_kept_by_store v el :
  hasAttribute "data-translate-inline" (setAttribute "data-original-content" v el)
  = hasAttribute "data-translate-inline" el.
Proof.
  unfold hasAttribute, getAttribute. simpl.
  rewrite attr_get_set_other; [reflexivity | discriminate].
Qed.

Lemma translate_inline_keeps_flag el :
  hasAttribute "data-translate-inline" (translate_inline H B translations el)
  = hasAttribute "data-translate-inline" el.
Proof.
  destruct (hasAttribute "data-translate-inline" el) eqn:Hflag.
  - rewrite (translate_inline_cases el Hflag). cbv zeta.
    destruct (has_markers (original_of el));
      destruct (Str.is_empty (or_empty (getAttribute "data-original-content" el)));
      unfold with_content, hasAttribute, getAttribute in *; simpl;
      try rewrite attr_get_set_other by discriminate; exact Hflag.
  - unfold translate_inline. rewrite Hflag. exact Hflag.
Qed.

(** After a scan of an element whose original has markers, the original is
    stored and the content is the substituted original. *)
Lemma translate_inline_stores el :
  hasAttribute "data-translate-inline" el = true ->
  has_markers (original_of el) = true ->
  getAttribute "data-original-content" (translate_inline H B translations el)
  = Some (original_of el)
  /\ innerHTML (translate_inline H B translations el)
     = substituted H B translations (original_of el).
Proof.
  intros Hflag Hm. rewrite (translate_inline_cases el Hflag). cbv zeta.
  rewrite Hm. split; [|reflexivity].
  unfold original_of, getAttribute. simpl.
  destruct (attr_get "data-original-content" (attributes el)) as [s|] eqn:Hs; simpl.
  - destruct (Str.is_empty s) eqn:He; simpl.
    + apply attr_get_set_same.
    + exact Hs.
  - apply attr_get_set_same.
Qed.

Lemma has_markers_not_empty s : has_markers s = true -> Str.is_empty s = false.
Proof.
  unfold has_markers. intros Hm. apply andb_true_iff in Hm as [Hm _].
  apply (includes_not_empty "{{" s); [reflexivity | exact Hm].
Qed.

(** A later scan starts from the stored original, whatever the element
    holds by then. *)
Lemma translate_inline_rederives el content :
  hasAttribute "data-translate-inline" el = true ->
  has_markers (original_of el) = true ->
  translate_inline H B translations
    (with_content content (translate_inline H B translations el))
  = translate_inline H B translations el.
Proof.
  intros Hflag Hm.
  destruct (translate_inline_stores el Hflag Hm) as [Hstored Hcontent].
  pose proof (translate_inline_keeps_flag el) as Hkeep. rewrite Hflag in Hkeep.
  set (el' := translate_inline H B translations el) in *.
  assert (Hflag' : hasAttribute "data-translate-inline" (with_content content el') = true)
    by exact Hkeep.
  rewrite (translate_inline_cases _ Hflag'). cbv zeta.
  assert (Horig : original_of (with_content content el') = original_of el).
  { unfold original_of at 1. unfold getAttribute in *. simpl.
    rewrite Hstored. simpl. rewrite (has_markers_not_empty _ Hm). reflexivity. }
  rewrite Horig, Hm.
  assert (Hne : Str.is_empty
            (or_empty (getAttribute "data-original-content" (with_content content el')))
          = false).
  { unfold getAttribute in *. simpl. rewrite Hstored. simpl.
    apply has_markers_not_empty, Hm. }
  rewrite Hne. unfold with_content. simpl.
  rewrite <- Hcontent. destruct el'; reflexivity.
Qed.

Lemma translate_inline_twice el :
  translate_inline H B translations (translate_inline H B translations el)
  = translate_inline H B translations el.
Proof.
  destruct (hasAttribute "data-translate-inline" el) eqn:Hflag.
  2:{ unfold translate_inline at 2. rewrite Hflag.
      unfold translate_inline. rewrite Hflag. reflexivity. }
  destruct (has_markers (original_of el)) eqn:Hm.
  - rewrite <- (translate_inline_rederives el
                 (innerHTML (translate_inline H B translations el)) Hflag Hm) at 2.
    f_equal. unfold with_content.
    destruct (translate_inline H B translations el); reflexivity.
  - assert (Hone : translate_inline H B translations el =
              if Str.is_empty (or_empty (getAttribute "data-original-content" el))
              then setAttribute "data-original-content" (original_of el) el else el).
    { rewrite (translate_inline_cases el Hflag). cbv zeta. rewrite Hm. reflexivity. }
    rewrite Hone.
    destruct (Str.is_empty (or_empty (getAttribute "data-original-content" el))) eqn:He.
    + set (el1 := setAttribute "data-original-content" (original_of el) el).
      assert (Hflag1 : hasAttribute "data-translate-inline" el1 = true)
        by (unfold el1; rewrite flag_kept_by_store; exact Hflag).
      assert (Hinner : original_of el = innerHTML el)
        by (unfold original_of; rewrite He; reflexivity).
      assert (Hstored : getAttribute "data-original-content" el1 = Some (innerHTML el)).
      { unfold el1, getAttribute. simpl. rewrite Hinner. apply attr_get_set_same. }
      assert (Horig : original_of el1 = innerHTML el).
      { unfold original_of. rewrite Hstored. simpl.
        destruct (Str.is_empty (innerHTML el)); reflexivity. }
      rewrite (translate_inline_cases el1 Hflag1). cbv zeta.
      rewrite Horig, <- Hinner, Hm, Hstored. simpl.
      destruct (Str.is_empty (innerHTML el)); [|reflexivity].
      unfold el1, setAttribute. simpl. rewrite attr_set_twice. reflexivity.
    + rewrite (translate_inline_cases el Hflag). cbv zeta.
      rewrite Hm, He. reflexivity.
Qed.

End Inline.

(** C6: for a fixed table, scanning the inline markers of an element a
    second time leaves the element (its content and its attributes) as the
    first scan left it, and so for the whole document. *)
Theorem translateInlineMarkers_idempotent :
  forall (H : html) (B : builtins) (translations : json),
    (forall el : element,
        translate_inline H B translations (translate_inline H B translations el)
        = translate_inline H B translations el)
    /\ (forall d : document,
          translateInlineMarkers H B translations
            (translateInlineMarkers H B translations d)
          = translateInlineMarkers H B translations d).
Proof.
  intros H B translations. split.
  - apply translate_inline_twice.
  - intros d. unfold translateInlineMarkers, with_elements. simpl.
    rewrite map_map. f_equal. apply map_ext. intros el.
    apply translate_inline_twice.
Qed.

(** A translation that itself looks like a marker: the second scan starts
    again from the stored original and does not substitute inside what the
    first scan put in. *)
Example translate_inline_no_second_substitution :
  let table := JObj [("a", JStr "{{b}}"); ("b", JStr "x")] in
  let el := {| tagName := "SPAN"; input_type := "";
               attributes := [("data-translate-inline", "")];
               innerHTML := "{{a}}" |} in
  innerHTML (translate_inline plain_html es2023 table el) = "{{b}}"
  /\ innerHTML (translate_inline plain_html es2023 table
                  (translate_inline plain_html es2023 table el)) = "{{b}}".
Proof. vm_compute. split; reflexivity. Qed.

(* ================================================================== *)
(** ** The query string survives serialization *)

Lemma append_assoc_s (a b c : string) : (a ++ b) ++ c = a ++ (b ++ c).
Proof. induction a as [|x a IH]; simpl; [reflexivity | rewrite IH; reflexivity]. Qed.

Lemma has_char_append x a b : has_char x (a ++ b) = has_char x a || has_char x b.
Proof.
  induction a as [|c a IH]; simpl; [reflexivity|].
  rewrite IH, orb_assoc. reflexivity.
Qed.

Ltac each_char c := destruct c as [[] [] [] [] [] [] [] []].

Lemma encode_char_no_ampersand c : has_char "&" (Url.encode_char c) = false.
Proof. each_char c; reflexivity. Qed.

Lemma encode_char_no_equals c : has_char "=" (Url.encode_char c) = false.
Proof. each_char c; reflexivity. Qed.

Lemma encode_no_ampersand s : has_char "&" (Url.encode s) = false.
Proof.
  induction s as [|c s IH]; simpl; [reflexivity|].
  rewrite has_char_append, encode_char_no_ampersand, IH. reflexivity.
Qed.

Lemma encode_no_equals s : has_char "=" (Url.encode s) = false.
Proof.
  induction s as [|c s IH]; simpl; [reflexivity|].
  rewrite has_char_append, encode_char_no_equals, IH. reflexivity.
Qed.

Lemma plus_to_space_append a b :
  Url.plus_to_space (a ++ b) = Url.plus_to_space a ++ Url.plus_to_space b.
Proof. induction a as [|c a IH]; simpl; [reflexivity | rewrite IH; reflexivity]. Qed.

Lemma decode_encode_char c rest :
  Url.percent_decode (Url.plus_to_space (Url.encode_char c) ++ rest)
  = String c (Url.percent_decode rest).
Proof. each_char c; reflexivity. Qed.

Lemma decode_encode s : Url.decode (Url.encode s) = s.
Proof.
  unfold Url.decode. induction s as [|c s IH]; simpl; [reflexivity|].
  rewrite plus_to_space_append, decode_encode_char, IH. reflexivity.
Qed.

Lemma split_on_without sep a :
  has_char sep a = false -> Str.split_on sep a = [a].
Proof.
  induction a as [|c a IH]; simpl; [reflexivity|].
  intros Hc. apply orb_false_iff in Hc as [Hc Ha].
  rewrite Hc, (IH Ha). reflexivity.
Qed.

Lemma split_on_first sep a b :
  has_char sep a = false ->
  Str.split_on sep (a ++ String sep b) = a :: Str.split_on sep b.
Proof.
  induction a as [|c a IH]; simpl.
  - intros _. rewrite Ascii.eqb_refl. reflexivity.
  - intros Hc. apply orb_false_iff in Hc as [Hc Ha].
    rewrite Hc, (IH Ha). reflexivity.
Qed.

Lemma split_pair_first a b :
  has_char "=" a = false -> Url.split_pair (a ++ String "=" b) = (a, b).
Proof.
  induction a as [|c a IH]; simpl.
  - reflexivity.
  - intros Hc. apply orb_false_iff in Hc as [Hc Ha].
    rewrite Hc, (IH Ha). reflexivity.
Qed.

Lemma pair_not_empty a b : Str.is_empty (a ++ String "=" b) = false.
Proof. destruct a; reflexivity. Qed.

Lemma parse_piece n v rest :
  Url.parse_pieces ((Url.encode n ++ String "=" (Url.encode v)) :: rest)
  = (n, v) :: Url.parse_pieces rest.
Proof.
  simpl. rewrite pair_not_empty, split_pair_first by apply encode_no_equals.
  rewrite !decode_encode. reflexivity.
Qed.

Lemma pair_no_ampersand n v :
  has_char "&" (Url.encode n ++ String "=" (Url.encode v)) = false.
Proof.
  rewrite has_char_append. simpl.
  rewrite !encode_no_ampersand. reflexivity.
Qed.

(** Parsing what the serializer wrote gives the list back. *)
Lemma parse_serialize params : Url.parse (Url.serialize params) = params.
Proof.
  unfold Url.parse. induction params as [|[n v] rest IH]; [reflexivity|].
  destruct rest as [|p rest'].
  - simpl Url.serialize.
    change (Url.encode n ++ "=" ++ Url.encode v)
      with (Url.encode n ++ String "=" (Url.encode v)).
    rewrite split_on_without by apply pair_no_ampersand.
    apply parse_piece.
  - change (Url.serialize ((n, v) :: p :: rest'))
      with (Url.encode n ++ "=" ++ Url.encode v ++ "&" ++ Url.serialize (p :: rest')).
    replace (Url.encode n ++ "=" ++ Url.encode v ++ "&" ++ Url.serialize (p :: rest'))
      with ((Url.encode n ++ String "=" (Url.encode v))
            ++ String "&" (Url.serialize (p :: rest'))).
    + rewrite split_on_first by apply pair_no_ampersand.
      rewrite parse_piece, IH. reflexivity.
    + rewrite append_assoc_s. reflexivity.
Qed.

Lemma search_params_search_of params :
  Url.search_params (Url.search_of params) = params.
Proof.
  destruct params as [|p rest]; [reflexivity|].
  unfold Url.search_of, Url.search_params.
  change (Str.strip_prefix "?" ("?" ++ Url.serialize (p :: rest)))
    with (Some (Url.serialize (p :: rest))).
  apply parse_serialize.
Qed.

Lemma get_set name v params : Url.get name (Url.set name v params) = Some v.
Proof.
  induction params as [|[n w] rest IH]; simpl.
  - rewrite String.eqb_refl. reflexivity.
  - destruct (String.eqb n name) eqn:E; simpl; rewrite E; [reflexivity | exact IH].
Qed.

(** After the switch has rewritten the URL, its [lang] parameter reads back
    as the code that was set. *)
Lemma query_code_after_set code e :
  query_code (set_lang_parameter code e) = Some code.
Proof.
  unfold query_code, set_lang_parameter. simpl.
  rewrite search_params_search_of. apply get_set.
Qed.

(* ================================================================== *)
(** ** Loading and switching *)

(** The part of C1 the code has: when the table of a code other than the
    default cannot be loaded and the default one can, the default code
    becomes current and its table is installed. *)
Lemma loadTranslations_falls_back net w t :
  currentLanguage w <> "en" ->
  net (language_file (currentLanguage w)) = None ->
  net "languages/en.json" = Some t ->
  exists w',
    loadTranslations net w = Fulfilled w'
    /\ currentLanguage w' = "en" /\ translations w' = t
    /\ requests w' =
       (requests w ++ [language_file (currentLanguage w); "languages/en.json"])%list.
Proof.
  intros Hne Hfail Hen. unfold loadTranslations. rewrite Hfail. simpl.
  apply String.eqb_neq in Hne. rewrite Hne. simpl. rewrite Hen.
  eexists. split; [reflexivity|]. simpl.
  rewrite <- app_assoc. repeat split.
Qed.

(** When the default code is the one asked for and its table cannot be
    loaded, the error is caught: the call is fulfilled and the table stays as
    it was. *)
Lemma loadTranslations_default_quiet net w :
  currentLanguage w = "en" ->
  net "languages/en.json" = None ->
  exists w',
    loadTranslations net w = Fulfilled w'
    /\ currentLanguage w' = "en" /\ translations w' = translations w.
Proof.
  intros Hen Hfail. unfold loadTranslations. rewrite Hen.
  change (language_file "en") with "languages/en.json".
  rewrite Hfail. simpl. rewrite Hen. simpl.
  eexists. split; [reflexivity|]. split; [exact Hen | reflexivity].
Qed.

(** C1, where the code departs from it: when the table of a code other than
    the default cannot be loaded and the retry with the default fails too,
    the second failure is not caught: the call is rejected, with the default
    code current and the table as it was. *)
Theorem loadTranslations_retry_rejects :
  forall (net : server) (w : world),
    currentLanguage w <> "en" ->
    net (language_file (currentLanguage w)) = None ->
    net "languages/en.json" = None ->
    exists w',
      loadTranslations net w = Rejected w'
      /\ currentLanguage w' = "en" /\ translations w' = translations w.
Proof.
  intros net w Hne Hfail Hen. unfold loadTranslations. rewrite Hfail. simpl.
  apply String.eqb_neq in Hne. rewrite Hne. simpl. rewrite Hen.
  eexists. split; [reflexivity|]. split; reflexivity.
Qed.

Lemma loadTranslations_retry_rejects_witness :
  exists w',
    loadTranslations offline (with_language "es" sample_world) = Rejected w'
    /\ currentLanguage w' = "en"
    /\ translations w' = translations (with_language "es" sample_world).
Proof.
  apply (loadTranslations_retry_rejects offline (with_language "es" sample_world)).
  - discriminate.
  - reflexivity.
  - reflexivity.
Defined.

(** C5: a switch to the code that is already current returns at once and
    leaves everything as it was: the list of requests, the table and the
    current code, the page, the saved preference and the URL. *)
Theorem switchLanguage_same_code :
  forall (H : html) (B : builtins) (net : server) (w : world),
    switchLanguage H B net (currentLanguage w) w = Some (Fulfilled w).
Proof.
  intros H B net w. unfold switchLanguage.
  rewrite String.eqb_refl. reflexivity.
Qed.

Lemma autoTranslateElements_lang H B t d d' :
  autoTranslateElements H B t d = Some d' -> lang d' = lang d.
Proof.
  unfold autoTranslateElements.
  destruct (for_each _ _) as [els|]; [|discriminate].
  intros [= <-]. reflexivity.
Qed.

(** What a fulfilled load leaves as current code. *)
Lemma loadTranslations_language net code w w1 :
  loadTranslations net (with_language code w) = Fulfilled w1 ->
  currentLanguage w1 = (if is_some (net (language_file code)) then code else "en")
  /\ env w1 = env w /\ page w1 = page w /\ pushed w1 = pushed w.
Proof.
  unfold loadTranslations. simpl.
  destruct (net (language_file code)) as [t|]; simpl.
  - intros [= <-]. repeat split.
  - destruct (String.eqb code "en") eqn:E; simpl.
    + intros [= <-]. apply String.eqb_eq in E. subst code. repeat split.
    + destruct (net "languages/en.json"); [|discriminate].
      intros [= <-]. repeat split.
Qed.

(** C4, as the code has it: after a completed switch to a code [c] other
    than the current one, the current language is [c] when the table of [c]
    was loaded and the default code when it was not; the language attribute
    of the document is the current language; the document is the one before
    the switch with that attribute set, scanned with the installed table;
    the saved preference is [c]; and the [lang] parameter of the URL is [c]. *)
Theorem switchLanguage_effects :
  forall (H : html) (B : builtins) (net : server) (c : string) (w w' : world),
    c <> currentLanguage w ->
    switchLanguage H B net c w = Some (Fulfilled w') ->
    currentLanguage w' = (if is_some (net (language_file c)) then c else "en")
    /\ lang (page w') = currentLanguage w'
    /\ (exists d,
          updateContent_doc H B (currentLanguage w') (translations w')
            (updatePageLanguage_doc (currentLanguage w') (page w)) = Some d
          /\ page w' = updateLanguageSelectors (currentLanguage w') d)
    /\ preferred_language (env w') = Some c
    /\ query_code (env w') = Some c.
Proof.
  intros H B net c w w' Hne. unfold switchLanguage.
  apply String.eqb_neq in Hne. rewrite Hne.
  destruct (loadTranslations net (with_language c w)) as [w1|w1] eqn:Hload;
    [|discriminate].
  destruct (loadTranslations_language net c w w1 Hload) as (Hcur & Henv & Hpage & _).
  unfold updateContent, updatePageLanguage. simpl.
  rewrite Hpage.
  destruct (updateContent_doc H B (currentLanguage w1) (translations w1)
              (updatePageLanguage_doc (currentLanguage w1) (page w)))
    as [d|] eqn:Hscan; [|discriminate].
  intros [= <-]. simpl.
  split; [exact Hcur|]. split.
  - unfold updateContent_doc in Hscan.
    apply autoTranslateElements_lang in Hscan. exact Hscan.
  - split.
    + exists d. split; [exact Hscan | reflexivity].
    + split; [reflexivity|].
      apply (query_code_after_set c (save_preference c (env w1))).
Qed.

Lemma switchLanguage_effects_witness :
  currentLanguage after_switch_es = "es"
  /\ lang (page after_switch_es) = "es"
  /\ preferred_language (env after_switch_es) = Some "es"
  /\ query_code (env after_switch_es) = Some "es".
Proof.
  destruct (switchLanguage_effects plain_html es2023 site "es" sample_world
              after_switch_es)
    as (Hcur & Hlang & _ & Hsaved & Hquery).
  - discriminate.
  - vm_compute. reflexivity.
  - split; [exact Hcur|]. split; [exact Hlang|]. split; [exact Hsaved|].
    exact Hquery.
Defined.

(** C4 as stated fails for a code whose table cannot be loaded: the switch
    to ["fr"] completes with the default code as current language, while the
    saved preference and the URL say ["fr"]. *)
Lemma switchLanguage_missing_table :
  "fr" <> currentLanguage sample_world
  /\ exists w',
       switchLanguage plain_html es2023 site "fr" sample_world = Some (Fulfilled w')
       /\ currentLanguage w' <> "fr"
       /\ currentLanguage w' = "en"
       /\ preferred_language (env w') = Some "fr"
       /\ query_code (env w') = Some "fr".
Proof.
  split; [discriminate|].
  eexists. split; [vm_compute; reflexivity|].
  split; [discriminate|]. repeat split.
Qed.

(* ================================================================== *)
(** ** Interpolation *)

Lemma append_nil_r_s (s : string) : s ++ "" = s.
Proof. induction s as [|c s IH]; simpl; [reflexivity | rewrite IH; reflexivity]. Qed.

Lemma all_chars_append f a b :
  all_chars f (a ++ b) = all_chars f a && all_chars f b.
Proof.
  induction a as [|c a IH]; simpl; [reflexivity|].
  rewrite IH, andb_assoc. reflexivity.
Qed.

Lemma all_chars_weaken (f g : ascii -> bool) s :
  (forall c, f c = true -> g c = true) ->
  all_chars f s = true -> all_chars g s = true.
Proof.
  intros Hfg. induction s as [|c s IH]; simpl; [reflexivity|].
  intros Hs. apply andb_true_iff in Hs as [Hc Hs].
  rewrite (Hfg c Hc), (IH Hs). reflexivity.
Qed.

(** A template without [$] is put in as it is. *)
Lemma expand_no_dollar template matched before after :
  no_dollar template = true ->
  expand template matched before after = template.
Proof.
  unfold no_dollar. induction template as [|c t IH]; simpl; [reflexivity|].
  intros Hs. apply andb_true_iff in Hs as [Hc Hs].
  destruct (Ascii.eqb c "$"); [discriminate|].
  rewrite (IH Hs). reflexivity.
Qed.

Lemma strip_prefix_append p s : Str.strip_prefix p (p ++ s) = Some s.
Proof.
  induction p as [|c p IH]; simpl; [reflexivity|].
  rewrite Ascii.eqb_refl. exact IH.
Qed.

Lemma starts_with_append p s : Str.starts_with p (p ++ s) = true.
Proof. unfold Str.starts_with. rewrite strip_prefix_append. reflexivity. Qed.

Lemma substring_prefix m q : substring 0 (String.length m) (m ++ q) = m.
Proof.
  induction m as [|c m IH]; simpl.
  - destruct q; reflexivity.
  - rewrite IH. reflexivity.
Qed.

Section Replace.

Variables (re : pattern) (template : string).

(** Inside a match the scan only moves on. *)
Lemma replace_from_skip m : forall before q,
  replace_from re template before (String.length m) (m ++ q)
  = replace_from re template (before ++ m) 0 q.
Proof.
  induction m as [|c m IH]; intros before q; simpl.
  - rewrite append_nil_r_s. destruct q; reflexivity.
  - rewrite IH, append_assoc_s. reflexivity.
Qed.

Lemma replace_from_no_match before c rest :
  match_at re (String c rest) = None ->
  replace_from re template before 0 (String c rest)
  = String c (replace_from re template (before ++ String c "") 0 rest).
Proof. intros Hm. simpl. rewrite Hm. reflexivity. Qed.

Lemma replace_from_match before c rest n :
  match_at re (String c rest) = Some (S n) ->
  replace_from re template before 0 (String c rest)
  = expand template (substring 0 (S n) (String c rest)) before
      (Str.drop (S n) (String c rest))
    ++ replace_from re template (before ++ String c "") n rest.
Proof. intros Hm. simpl replace_from. rewrite Hm. reflexivity. Qed.

End Replace.

Lemma match_at_not_open name c s :
  Ascii.eqb c "{" = false -> match_at (Verbatim name) (String c s) = None.
Proof. each_char c; try reflexivity; discriminate. Qed.

(** Before the first opening brace nothing matches. *)
Lemma replace_from_no_open name template p : forall before rest,
  no_open p = true ->
  replace_from (Verbatim name) template before 0 (p ++ rest)
  = p ++ replace_from (Verbatim name) template (before ++ p) 0 rest.
Proof.
  unfold no_open. induction p as [|c p IH]; intros before rest Hp.
  - simpl. rewrite append_nil_r_s. reflexivity.
  - simpl in Hp. apply andb_true_iff in Hp as [Hc Hp].
    apply negb_true_iff in Hc.
    change (String c p ++ rest) with (String c (p ++ rest)).
    rewrite replace_from_no_match by (apply match_at_not_open, Hc).
    rewrite (IH _ _ Hp), append_assoc_s. reflexivity.
Qed.

(** One placeholder between two stretches without opening brace is
    replaced by the value, and nothing else changes. *)
Lemma replace_all_placeholder name v p q :
  no_open p = true -> no_open q = true -> no_dollar v = true ->
  replace_all (Verbatim name) v (p ++ placeholder name ++ q) = p ++ v ++ q.
Proof.
  intros Hp Hq Hv. unfold replace_all.
  rewrite (replace_from_no_open name v p "" _ Hp). f_equal.
  assert (Hmatch : match_at (Verbatim name) (placeholder name ++ q)
                   = Some (String.length (placeholder name))).
  { unfold match_at. rewrite starts_with_append. reflexivity. }
  set (tail := String "{" (name ++ "}}")).
  change (placeholder name) with (String "{" tail) in *.
  change (String "{" tail ++ q) with (String "{" (tail ++ q)) in *.
  change (String.length (String "{" tail)) with (S (String.length tail)) in Hmatch.
  rewrite (replace_from_match _ _ _ _ _ _ Hmatch).
  rewrite (expand_no_dollar v _ _ _ Hv). f_equal.
  rewrite (replace_from_skip (Verbatim name) v tail).
  rewrite <- (append_nil_r_s q) at 1.
  rewrite (replace_from_no_open name v q _ "" Hq).
  simpl. apply append_nil_r_s.
Qed.

Lemma digit_not_comma c d : digit_of c = Some d -> Ascii.eqb c "," = false.
Proof. each_char c; try reflexivity; discriminate. Qed.

Lemma parse_digits_no_comma s : forall acc x,
  parse_digits acc s = Some x -> has_char "," s = false.
Proof.
  induction s as [|c s IH]; simpl; intros acc x Hx; [reflexivity|].
  destruct (digit_of c) as [d|] eqn:Hd; [|discriminate].
  rewrite (digit_not_comma c d Hd). simpl. exact (IH _ _ Hx).
Qed.

Lemma array_index_digits k i :
  array_index k = Some i -> decimal k = Some i.
Proof.
  unfold array_index, decimal. destruct k as [|c rest]; [discriminate|].
  destruct (Ascii.eqb c "0" && negb (Str.is_empty rest))%bool; [discriminate|].
  intros Hk. exact Hk.
Qed.

(** A name whose pattern is verbatim is not an integer index, so it is
    enumerated in creation order. *)
Lemma verbatim_not_index name n :
  compile name = Some (Verbatim n) -> integer_index name = None.
Proof.
  intros Hc. unfold integer_index.
  destruct (array_index name) as [i|] eqn:Hi; [|reflexivity].
  exfalso. apply array_index_digits in Hi.
  assert (Hsplit : Str.split_on "," name = [name]).
  { apply split_on_without. unfold decimal in Hi.
    destruct (Str.is_empty name); [discriminate|].
    exact (parse_digits_no_comma _ _ _ Hi). }
  unfold compile, quantifier_bounds in Hc. rewrite Hsplit, Hi in Hc.
  rewrite N.leb_refl in Hc. discriminate.
Qed.

Lemma verbatim_plain name n :
  compile name = Some (Verbatim n) ->
  no_open name = true /\ no_dollar name = true.
Proof.
  unfold compile.
  destruct (quantifier_bounds name) as [[lo [hi|]]|].
  - destruct (N.leb lo hi); discriminate.
  - discriminate.
  - destruct (all_chars (fun c => negb (syntax_character c)) name) eqn:Hall;
      [|discriminate].
    intros _. split.
    + apply (all_chars_weaken _ _ name) with (2 := Hall).
      intros c. each_char c; try reflexivity; discriminate.
    + apply (all_chars_weaken _ _ name) with (2 := Hall).
      intros c. each_char c; try reflexivity; discriminate.
Qed.

Lemma object_keys_two a va b vb :
  integer_index a = None -> integer_index b = None ->
  object_keys [(a, va); (b, vb)] = [a; b].
Proof.
  intros Ha Hb. unfold object_keys. simpl. rewrite Ha, Hb. reflexivity.
Qed.

Lemma interpolate_one_verbatim variables t name v :
  compile name = Some (Verbatim name) ->
  obj_get name variables = Some v ->
  interpolate_one variables (Some t) name
  = Some (replace_all (Verbatim name) v t).
Proof. intros Hc Hg. unfold interpolate_one. rewrite Hc, Hg. reflexivity. Qed.

(** Two variables [a] and [b] with verbatim patterns, enumerated in that
    order, a text holding the placeholder of [a] and a value of [a] holding
    the placeholder of [b]: the placeholder brought in by the value of [a] is
    replaced by the value of [b], when that value has no [$]. *)
Theorem textWithVars_sequential :
  forall (B : builtins) (translations : json) (key : value) (fallback : string)
         (a b p q p' q' vb : string),
    compile a = Some (Verbatim a) ->
    compile b = Some (Verbatim b) ->
    a <> b ->
    no_open p = true -> no_open q = true ->
    no_open (p' ++ q') = true -> no_dollar (p' ++ q') = true ->
    no_dollar vb = true ->
    text B translations key fallback = p ++ placeholder a ++ q ->
    textWithVars B translations key
      [(a, p' ++ placeholder b ++ q'); (b, vb)] fallback
    = Some (p ++ p' ++ vb ++ q' ++ q).
Proof.
  intros B translations key fallback a b p q p' q' vb
         Ha Hb Hab Hp Hq Hopen Hdollar Hvb Htext.
  unfold no_open, no_dollar in Hopen, Hdollar.
  rewrite all_chars_append in Hopen, Hdollar.
  apply andb_true_iff in Hopen as [Hp' Hq'].
  apply andb_true_iff in Hdollar as [Hdp' Hdq'].
  destruct (verbatim_plain b b Hb) as [_ Hdb].
  unfold textWithVars.
  rewrite (object_keys_two a _ b vb
             (verbatim_not_index a a Ha) (verbatim_not_index b b Hb)).
  assert (Hba : String.eqb b a = false)
    by (apply String.eqb_neq; intros ->; apply Hab; reflexivity).
  cbn [fold_left]. rewrite Htext.
  rewrite (interpolate_one_verbatim _ _ a (p' ++ placeholder b ++ q') Ha)
    by (simpl; rewrite String.eqb_refl; reflexivity).
  rewrite (interpolate_one_verbatim _ _ b vb Hb)
    by (simpl; rewrite Hba, String.eqb_refl; reflexivity).
  f_equal.
  rewrite (replace_all_placeholder a (p' ++ placeholder b ++ q') p q Hp Hq).
  2:{ unfold no_dollar, placeholder.
      rewrite !all_chars_append. fold (no_dollar b).
      rewrite Hdp', Hdq', Hdb. reflexivity. }
  replace (p ++ (p' ++ placeholder b ++ q') ++ q)
    with ((p ++ p') ++ placeholder b ++ (q' ++ q))
    by (rewrite !append_assoc_s; reflexivity).
  rewrite (replace_all_placeholder b vb (p ++ p') (q' ++ q)).
  - rewrite !append_assoc_s. reflexivity.
  - unfold no_open. rewrite all_chars_append. fold (no_open p).
    rewrite Hp, Hp'. reflexivity.
  - unfold no_open. rewrite all_chars_append. fold (no_open q).
    rewrite Hq, Hq'. reflexivity.
  - exact Hvb.
Qed.

Lemma textWithVars_sequential_witness :
  textWithVars es2023 (JObj [("greeting", JStr "Dear {{title}}.")])
    (VStr "greeting") [("title", "Dr {{name}}, PhD"); ("name", "Ana")] ""
  = Some ("Dear " ++ "Dr " ++ "Ana" ++ ", PhD" ++ ".").
Proof.
  apply (textWithVars_sequential es2023
           (JObj [("greeting", JStr "Dear {{title}}.")]) (VStr "greeting") ""
           "title" "name" "Dear " "." "Dr " ", PhD" "Ana");
    solve [reflexivity | discriminate].
Defined.

(** With the two variables created in the other order, the placeholder
    brought in by the second one stays: the first has already been done. *)
Example textWithVars_order_matters :
  textWithVars es2023 (JObj [("greeting", JStr "Dear {{title}}.")])
    (VStr "greeting") [("name", "Ana"); ("title", "Dr {{name}}, PhD")] ""
  = Some "Dear Dr {{name}}, PhD.".
Proof. reflexivity. Qed.

(** The example of the specification. *)
Example textWithVars_repeated_name :
  forall B : builtins,
    textWithVars B (JObj [("msg", JStr "Hi {{n}}, {{n}}!")]) (VStr "msg")
      [("n", "Sam")] ""
    = Some "Hi Sam, Sam!".
Proof. intros B. reflexivity. Qed.

(** C7, where the code departs from it.  The value of a variable is used as
    a replacement template, in which [$$] stands for one [$] and [$&] for
    the text matched: the value is not what ends up in the text.  And the
    name of a variable is used as the source of a regular expression: for a
    name made of digits the braces around it read as a quantifier, and the
    placeholder of that name is not what the expression matches. *)
Theorem textWithVars_template_and_pattern :
  forall B : builtins,
    textWithVars B (JObj [("total", JStr "Total: {{amount}}")]) (VStr "total")
      [("amount", "$$5")] ""
    = Some "Total: $5"
    /\ textWithVars B (JObj [("note", JStr "See {{ref}}")]) (VStr "note")
         [("ref", "R$&D")] ""
       = Some "See R{{ref}}D"
    /\ textWithVars B (JObj [("hello", JStr "Hi {{1}}")]) (VStr "hello")
         [("1", "Sam")] ""
       = Some "Hi {{1}}"
    /\ textWithVars B (JObj [("hello", JStr "Hi {{0}}")]) (VStr "hello")
         [("0", "Sam")] ""
       = Some "Hi {{0SamSam".
Proof. intros B. repeat split. Qed.

(* ================================================================== *)
(** ** Resolution when the storage may be denied *)

Lemma with_readable_storage a item :
  ambient_storage a = Readable item ->
  detectLanguage_with_storage a = Resolved (detectLanguage (seen a item)).
Proof.
  intros Hs.
  unfold detectLanguage_with_storage, query_onwards, storage_onwards,
    detectLanguage, from_query, hash_code, query_code.
  rewrite Hs. simpl.
  destruct (hash_match (ambient_hash a)) as [code|].
  - destruct (supported code); [reflexivity|].
    destruct (Url.get "lang" (Url.search_params (ambient_search a))) as [p|];
      [|reflexivity].
    destruct (negb (Str.is_empty p) && supported p); reflexivity.
  - destruct (Url.get "lang" (Url.search_params (ambient_search a))) as [p|];
      [|reflexivity].
    destruct (negb (Str.is_empty p) && supported p); reflexivity.
Qed.

(** The URL alone decides when its fragment or its query has a supported
    code: the storage is not looked at. *)
Lemma url_decides a item c :
  offer (hash_code (seen a item)) = Some c
  \/ (offer (hash_code (seen a item)) = None
      /\ offer (query_code (seen a item)) = Some c) ->
  detectLanguage_with_storage a = Resolved c.
Proof.
  unfold detectLanguage_with_storage, query_onwards, hash_code, query_code. simpl.
  intros [Hh | [Hh Hq]].
  - apply offer_some in Hh as [-> Hc]. rewrite Hc. reflexivity.
  - apply offer_some in Hq as [-> Hc].
    rewrite Hc, (supported_not_empty c Hc). simpl.
    destruct (hash_match (ambient_hash a)) as [d|]; [|reflexivity].
    rewrite (offer_none _ d Hh eq_refl). reflexivity.
Qed.

(** C8, as the code has it: when the storage can be read, resolution
    returns a code, a supported one, and the default when none of the five
    sources proposes a supported code; for a supported code [c], a URL
    without fragment whose query is [?lang=c] resolves to [c], whatever the
    storage does; with nothing set and a browser language that is not
    supported the result is the default.  When the use of the storage is
    denied, resolution still returns the supported code of the fragment or of
    the query parameter if there is one, and raises otherwise. *)
Theorem detectLanguage_readable_storage :
  forall a : ambient,
    (forall item, ambient_storage a = Readable item ->
       exists c, detectLanguage_with_storage a = Resolved c
                 /\ supported c = true
                 /\ (offer (hash_code (seen a item)) = None ->
                     offer (query_code (seen a item)) = None ->
                     offer (saved_code (seen a item)) = None ->
                     offer (path_code (seen a item)) = None ->
                     offer (Some (browser_code (seen a item))) = None ->
                     c = "en"))
    /\ (forall c, supported c = true -> ambient_hash a = "" ->
          ambient_search a = "?lang=" ++ c ->
          detectLanguage_with_storage a = Resolved c)
    /\ (ambient_hash a = "" -> ambient_search a = "" ->
        ambient_storage a = Readable None -> ambient_pathname a = "/" ->
        supported (hd EmptyString (Str.split_on "-" (ambient_language a))) = false ->
        detectLanguage_with_storage a = Resolved "en")
    /\ (ambient_storage a = Denied ->
        (forall c, offer (hash_match (ambient_hash a)) = Some c
                   \/ (offer (hash_match (ambient_hash a)) = None
                       /\ offer (Url.get "lang" (Url.search_params (ambient_search a)))
                          = Some c) ->
                   detectLanguage_with_storage a = Resolved c)
        /\ (offer (hash_match (ambient_hash a)) = None ->
            offer (Url.get "lang" (Url.search_params (ambient_search a))) = None ->
            detectLanguage_with_storage a = Raised)).
Proof.
  intros a. split; [|split; [|split]].
  - intros item Hs. exists (detectLanguage (seen a item)).
    split; [apply with_readable_storage, Hs|].
    destruct (detectLanguage_total (seen a item)) as (Hsup & Hdefault & _).
    split; [exact Hsup | exact Hdefault].
  - intros c Hc Hh Hq. apply (url_decides a None c). right.
    unfold hash_code, query_code. simpl. rewrite Hh, Hq. split; [reflexivity|].
    destruct (supported_cases c Hc); subst c; reflexivity.
  - intros Hh Hq Hs Hp Hb.
    rewrite (with_readable_storage a None Hs).
    destruct (detectLanguage_total (seen a None)) as (_ & _ & _ & Hnothing).
    rewrite Hnothing; [reflexivity | exact Hh | exact Hq | reflexivity | exact Hp | exact Hb].
  - intros Hs. split.
    + intros c Hc. exact (url_decides a None c Hc).
    + intros Hh Hq.
      unfold detectLanguage_with_storage, query_onwards, storage_onwards.
      rewrite Hs.
      destruct (hash_match (ambient_hash a)) as [d|].
      * rewrite (offer_none _ d Hh eq_refl).
        destruct (Url.get "lang" (Url.search_params (ambient_search a))) as [p|];
          [|reflexivity].
        rewrite (offer_none _ p Hq eq_refl), andb_false_r. reflexivity.
      * destruct (Url.get "lang" (Url.search_params (ambient_search a))) as [p|];
          [|reflexivity].
        rewrite (offer_none _ p Hq eq_refl), andb_false_r. reflexivity.
Qed.

Lemma detectLanguage_readable_storage_witness :
  detectLanguage_with_storage storage_empty = Resolved "en"
  /\ detectLanguage_with_storage storage_denied_with_query = Resolved "es"
  /\ detectLanguage_with_storage storage_denied = Raised.
Proof.
  split; [|split].
  - apply (proj1 (proj2 (proj2 (detectLanguage_readable_storage storage_empty))));
      reflexivity.
  - apply (proj1 (proj2 (detectLanguage_readable_storage storage_denied_with_query))
             "es"); reflexivity.
  - apply (proj2 (proj2 (proj2 (proj2
             (detectLanguage_readable_storage storage_denied))) eq_refl));
      reflexivity.
Defined.

(** C8 as stated fails where the page may not use the storage: with no
    code in the URL, [getItem] is reached and throws, and no code is
    returned. *)
Lemma detectLanguage_storage_denied :
  detectLanguage_with_storage storage_denied = Raised
  /\ forall c, detectLanguage_with_storage storage_denied <> Resolved c.
Proof. split; [reflexivity | intros c; discriminate]. Qed.

(* ================================================================== *)
(** ** The order of the substitutions *)

Lemma literal_compile name :
  literal_name name = true -> compile name = Some (Verbatim name).
Proof.
  unfold literal_name, compile. intros Hl.
  apply andb_true_iff in Hl as [Hall Hq].
  destruct (quantifier_bounds name); [discriminate|].
  rewrite Hall. reflexivity.
Qed.

Lemma compile_literal name n :
  compile name = Some (Verbatim n) -> literal_name name = true.
Proof.
  unfold literal_name, compile.
  destruct (quantifier_bounds name) as [[lo [hi|]]|].
  - destruct (N.leb lo hi); discriminate.
  - discriminate.
  - destruct (all_chars (fun c => negb (syntax_character c)) name);
      [reflexivity | discriminate].
Qed.

Lemma literal_not_index name :
  literal_name name = true -> integer_index name = None.
Proof. intros Hl. exact (verbatim_not_index name name (literal_compile name Hl)). Qed.

Lemma literal_no_close name :
  literal_name name = true -> has_char "}" name = false.
Proof.
  unfold literal_name. intros Hl. apply andb_true_iff in Hl as [Hall _].
  induction name as [|c name IH]; [reflexivity|].
  simpl in Hall. apply andb_true_iff in Hall as [Hc Hall].
  cbn [has_char]. rewrite (IH Hall), orb_false_r.
  revert Hc. each_char c; try reflexivity; discriminate.
Qed.

(** Names that are no integer index are enumerated as they were created. *)
Lemma object_keys_creation_order (o : jsobject) :
  forallb (fun k => negb (is_some (integer_index k))) (map fst o) = true ->
  object_keys o = map fst o.
Proof.
  unfold object_keys. generalize (map fst o) as names. intros names Hall.
  assert (Hboth : index_names names = []
                  /\ filter (fun k => negb (is_some (integer_index k))) names = names).
  { induction names as [|k names IH]; [split; reflexivity|].
    cbn [forallb] in Hall. apply andb_true_iff in Hall as [Hk Hall].
    destruct (IH Hall) as [Hi Hf]. cbn [index_names filter].
    rewrite Hk, Hf. destruct (integer_index k); [discriminate|].
    split; [exact Hi | reflexivity]. }
  destruct Hboth as [-> ->]. reflexivity.
Qed.

(** An integer index is a quantifier between the braces. *)
Lemma index_compile n i :
  integer_index n = Some i -> compile n = Some (Braces i (Some i)).
Proof.
  unfold integer_index.
  destruct (array_index n) as [j|] eqn:Hj; [|discriminate].
  destruct (N.leb j 4294967294); [|discriminate]. intros [= <-].
  apply array_index_digits in Hj.
  assert (Hsplit : Str.split_on "," n = [n]).
  { apply split_on_without. unfold decimal in Hj.
    destruct (Str.is_empty n); [discriminate|].
    exact (parse_digits_no_comma _ _ _ Hj). }
  unfold compile, quantifier_bounds. rewrite Hsplit, Hj, N.leb_refl. reflexivity.
Qed.

Lemma obj_get_entries (o : jsobject) :
  NoDup (map fst o) ->
  Forall (fun entry => obj_get (fst entry) o = Some (snd entry)) o.
Proof.
  induction o as [|[name v] rest IH]; intros Hnd; constructor.
  - simpl. rewrite String.eqb_refl. reflexivity.
  - simpl in Hnd. inversion Hnd as [|x l Hnotin Hrest]; subst.
    apply Forall_forall. intros [k w] Hin. simpl.
    destruct (String.eqb k name) eqn:E.
    + apply String.eqb_eq in E. subst k. exfalso. apply Hnotin.
      apply in_map_iff. exists (name, w). split; [reflexivity | exact Hin].
    + exact (proj1 (Forall_forall _ _) (IH Hrest) (k, w) Hin).
Qed.

Lemma fold_interpolate_literal variables : forall l t,
  Forall (fun entry => literal_name (fst entry) = true
                       /\ obj_get (fst entry) variables = Some (snd entry)) l ->
  fold_left (interpolate_one variables) (map fst l) (Some t)
  = Some (fold_left
            (fun s entry => replace_all (Verbatim (fst entry)) (snd entry) s) l t).
Proof.
  induction l as [|[k v] l IH]; intros t Hall; [reflexivity|].
  inversion Hall as [|x y [Hk Hv] Hrest]; subst. simpl in Hk, Hv.
  cbn [map fold_left fst snd].
  rewrite (interpolate_one_verbatim variables t k v (literal_compile k Hk) Hv).
  apply IH, Hrest.
Qed.

Lemma starts_with_cons c p s :
  Str.starts_with (String c p) (String c s) = Str.starts_with p s.
Proof. unfold Str.starts_with. cbn [Str.strip_prefix]. rewrite Ascii.eqb_refl. reflexivity. Qed.

(** Two names without closing brace whose placeholders start alike are the
    same name. *)
Lemma closing_starts_with b : forall a q,
  has_char "}" a = false -> has_char "}" b = false ->
  Str.starts_with (b ++ "}}") (a ++ "}}" ++ q) = true -> a = b.
Proof.
  induction b as [|c b IH]; intros [|c' a] q Ha Hb Hs.
  - reflexivity.
  - exfalso. cbn [has_char] in Ha. apply orb_false_iff in Ha as [Hc _].
    revert Hs. unfold Str.starts_with. cbn [append Str.strip_prefix].
    destruct (Ascii.eqb "}" c') eqn:E; [|discriminate].
    apply Ascii.eqb_eq in E. subst c'. discriminate.
  - exfalso. cbn [has_char] in Hb. apply orb_false_iff in Hb as [Hc _].
    revert Hs. unfold Str.starts_with. cbn [append Str.strip_prefix].
    destruct (Ascii.eqb c "}") eqn:E; [|discriminate]. discriminate.
  - cbn [has_char] in Ha, Hb.
    apply orb_false_iff in Ha as [_ Ha]. apply orb_false_iff in Hb as [_ Hb].
    revert Hs. unfold Str.starts_with. cbn [append Str.strip_prefix].
    destruct (Ascii.eqb c c') eqn:E; [|discriminate].
    apply Ascii.eqb_eq in E. subst c'. intros Hs.
    rewrite (IH a q Ha Hb Hs). reflexivity.
Qed.

(** The placeholder of another name is passed over. *)
Lemma replace_from_other_placeholder a b v q before :
  literal_name a = true -> literal_name b = true -> a <> b ->
  no_open q = true ->
  replace_from (Verbatim b) v before 0 (placeholder a ++ q) = placeholder a ++ q.
Proof.
  intros Ha Hb Hab Hq.
  pose proof (literal_no_close a Ha) as Hca.
  pose proof (literal_no_close b Hb) as Hcb.
  destruct (verbatim_plain a a (literal_compile a Ha)) as [Hoa _].
  assert (Hshape : placeholder a ++ q = String "{" (String "{" (a ++ "}}" ++ q))).
  { unfold placeholder. cbn [append]. rewrite append_assoc_s. reflexivity. }
  rewrite Hshape.
  rewrite replace_from_no_match.
  2:{ unfold match_at.
      change (placeholder b) with (String "{" (String "{" (b ++ "}}"))).
      rewrite !starts_with_cons.
      destruct (Str.starts_with (b ++ "}}") (a ++ "}}" ++ q)) eqn:E; [|reflexivity].
      exfalso. exact (Hab (closing_starts_with b a q Hca Hcb E)). }
  f_equal.
  rewrite replace_from_no_match.
  2:{ unfold match_at.
      change (placeholder b) with (String "{" (String "{" (b ++ "}}"))).
      rewrite starts_with_cons.
      destruct a as [|c a']; [reflexivity|].
      unfold no_open in Hoa. cbn [all_chars] in Hoa.
      apply andb_true_iff in Hoa as [Hc _]. apply negb_true_iff in Hc.
      unfold Str.starts_with. cbn [append Str.strip_prefix].
      rewrite Ascii.eqb_sym, Hc. reflexivity. }
  f_equal.
  rewrite <- (append_nil_r_s (a ++ "}}" ++ q)) at 1.
  rewrite replace_from_no_open.
  - simpl. apply append_nil_r_s.
  - unfold no_open in *. rewrite !all_chars_append, Hoa, Hq. reflexivity.
Qed.

(** X17: the variables are substituted one after the other, in the order
    in which [Object.keys] enumerates them, each on the result of the one
    before, its value taken as a replacement template.
    For names that are patterns of their own (no character of the regular
    expression syntax, no quantifier between the braces) that order is the
    order of creation and the result is the replacements composed from left
    to right.  A name that is an integer index is done before a name that is
    not, also when it was created after it.  With two such names [a] and
    [b], a text holding the placeholder of [a], and a value of [a] holding the
    placeholder of [b]: when the value of [b] has no [$] and [b] comes after
    [a], the placeholder brought in is replaced by the value of [b]; when [b]
    comes before [a], it stays as it is. *)
Theorem textWithVars_in_order :
  forall (B : builtins) (translations : json) (key : value) (fallback : string),
    (forall variables : jsobject,
        NoDup (map fst variables) ->
        forallb literal_name (map fst variables) = true ->
        textWithVars B translations key variables fallback
        = Some (fold_left
                  (fun s entry => replace_all (Verbatim (fst entry)) (snd entry) s)
                  variables (text B translations key fallback)))
    /\ (forall (a va n vn : string) (i : N) (re : pattern),
          integer_index a = None -> compile a = Some re ->
          integer_index n = Some i ->
          textWithVars B translations key [(a, va); (n, vn)] fallback
          = Some (replace_all re va
                    (replace_all (Braces i (Some i)) vn
                       (text B translations key fallback))))
    /\ (forall a b p q p' q' vb : string,
          literal_name a = true -> literal_name b = true -> a <> b ->
          no_open p = true -> no_open q = true ->
          no_open (p' ++ q') = true -> no_dollar (p' ++ q') = true ->
          no_dollar vb = true ->
          text B translations key fallback = p ++ placeholder a ++ q ->
          textWithVars B translations key
            [(a, p' ++ placeholder b ++ q'); (b, vb)] fallback
          = Some (p ++ p' ++ vb ++ q' ++ q)
          /\ textWithVars B translations key
               [(b, vb); (a, p' ++ placeholder b ++ q')] fallback
             = Some (p ++ p' ++ placeholder b ++ q' ++ q)).
Proof.
  intros B translations key fallback. split; [|split].
  - intros variables Hnd Hall. unfold textWithVars.
    rewrite object_keys_creation_order.
    + apply fold_interpolate_literal.
      pose proof (obj_get_entries variables Hnd) as Hget.
      rewrite forallb_forall in Hall. rewrite Forall_forall in Hget |- *.
      intros entry Hin. split; [|exact (Hget entry Hin)].
      apply Hall, in_map, Hin.
    + rewrite forallb_forall in Hall |- *. intros k Hk.
      rewrite (literal_not_index k (Hall k Hk)). reflexivity.
  - intros a va n vn i re Ha Hre Hn. unfold textWithVars, object_keys.
    cbn [map fst index_names filter]. rewrite Ha, Hn.
    cbn [insert_index is_some negb map snd app fold_left].
    unfold interpolate_one. rewrite (index_compile n i Hn), Hre.
    assert (Hna : String.eqb n a = false).
    { apply String.eqb_neq. intros ->. rewrite Ha in Hn. discriminate. }
    cbn [obj_get]. rewrite Hna, !String.eqb_refl. reflexivity.
  - intros a b p q p' q' vb Ha Hb Hab Hp Hq Hopen Hdollar Hvb Htext. split.
    + exact (textWithVars_sequential B translations key fallback a b p q p' q' vb
               (literal_compile a Ha) (literal_compile b Hb) Hab Hp Hq Hopen
               Hdollar Hvb Htext).
    + unfold no_open, no_dollar in Hopen, Hdollar.
      rewrite all_chars_append in Hopen, Hdollar.
      apply andb_true_iff in Hdollar as [Hdp' Hdq'].
      destruct (verbatim_plain b b (literal_compile b Hb)) as [_ Hdb].
      unfold textWithVars.
      rewrite (object_keys_two b vb a _
                 (literal_not_index b Hb) (literal_not_index a Ha)).
      assert (Hba : String.eqb a b = false)
        by (apply String.eqb_neq; exact Hab).
      cbn [fold_left]. rewrite Htext.
      rewrite (interpolate_one_verbatim _ _ b vb (literal_compile b Hb))
        by (simpl; rewrite String.eqb_refl; reflexivity).
      rewrite (interpolate_one_verbatim _ _ a (p' ++ placeholder b ++ q')
                 (literal_compile a Ha))
        by (simpl; rewrite Hba, String.eqb_refl; reflexivity).
      f_equal.
      assert (Hfirst : replace_all (Verbatim b) vb (p ++ placeholder a ++ q)
                       = p ++ placeholder a ++ q).
      { unfold replace_all. rewrite (replace_from_no_open b vb p _ _ Hp).
        rewrite (replace_from_other_placeholder a b vb q _ Ha Hb Hab Hq).
        reflexivity. }
      rewrite Hfirst.
      rewrite (replace_all_placeholder a (p' ++ placeholder b ++ q') p q Hp Hq).
      * rewrite !append_assoc_s. reflexivity.
      * unfold no_dollar, placeholder.
        rewrite !all_chars_append. fold (no_dollar b).
        rewrite Hdp', Hdq', Hdb. reflexivity.
Qed.

Lemma textWithVars_in_order_witness :
  textWithVars es2023 (JObj [("greeting", JStr "{{salute}} {{title}} {{name}}.")])
    (VStr "greeting")
    [("salute", "Dear"); ("title", "Dr"); ("name", "Ana")] ""
  = Some "Dear Dr Ana."
  /\ textWithVars es2023 (JObj [("count", JStr "{{}")]) (VStr "count")
       [("x", "A"); ("2", "{{x}}")] ""
     = Some "A"
  /\ textWithVars es2023 (JObj [("greeting", JStr "Dear {{title}}.")])
       (VStr "greeting") [("title", "Dr {{name}}, PhD"); ("name", "Ana")] ""
     = Some ("Dear " ++ "Dr " ++ "Ana" ++ ", PhD" ++ ".")
  /\ textWithVars es2023 (JObj [("greeting", JStr "Dear {{title}}.")])
       (VStr "greeting") [("name", "Ana"); ("title", "Dr {{name}}, PhD")] ""
     = Some ("Dear " ++ "Dr " ++ placeholder "name" ++ ", PhD" ++ ".").
Proof.
  split; [|split].
  - refine (eq_trans
              (proj1 (textWithVars_in_order es2023
                        (JObj [("greeting", JStr "{{salute}} {{title}} {{name}}.")])
                        (VStr "greeting") "")
                 [("salute", "Dear"); ("title", "Dr"); ("name", "Ana")] _ eq_refl)
              eq_refl).
    repeat constructor; simpl; intuition discriminate.
  - exact (eq_trans
             (proj1 (proj2 (textWithVars_in_order es2023
                              (JObj [("count", JStr "{{}")]) (VStr "count") ""))
                "x" "A" "2" "{{x}}" 2%N (Verbatim "x") eq_refl eq_refl eq_refl)
             eq_refl).
  - apply (proj2 (proj2 (textWithVars_in_order es2023
                           (JObj [("greeting", JStr "Dear {{title}}.")])
                           (VStr "greeting") ""))
             "title" "name" "Dear " "." "Dr " ", PhD" "Ana");
      solve [reflexivity | discriminate].
Defined.

(** C10, where the code departs from it.  The value of a variable
    processed later is used as a replacement template and its name as the
    source of a regular expression: with the value [$&] the placeholder
    brought in by an earlier value is put back, and the pattern of the name
    [1,] does not match the placeholder [{{1,}}]; in both cases the
    placeholder brought in stays in the text. *)
Theorem textWithVars_later_placeholder_stays :
  textWithVars es2023 (JObj [("greeting", JStr "Dear {{title}}.")])
    (VStr "greeting") [("title", "Dr {{name}}, PhD"); ("name", "$&")] ""
  = Some "Dear Dr {{name}}, PhD."
  /\ textWithVars es2023 (JObj [("greeting", JStr "Dear {{title}}.")])
       (VStr "greeting") [("title", "Dr {{1,}}"); ("1,", "Ana")] ""
     = Some "Dear Dr {{1,}}.".
Proof. split; reflexivity. Qed.

(* ================================================================== *)
(** * Further properties *)

(** ** Lookup on nested tables *)

Lemma split_on_not_nil sep s : exists piece pieces, Str.split_on sep s = piece :: pieces.
Proof.
  induction s as [|c s IH]; simpl.
  - eexists. eexists. reflexivity.
  - destruct (Ascii.eqb c sep).
    + eexists. eexists. reflexivity.
    + destruct IH as (piece & pieces & ->). eexists. eexists. reflexivity.
Qed.

Lemma split_on_append sep a b :
  Str.split_on sep (a ++ String sep b)
  = (Str.split_on sep a ++ Str.split_on sep b)%list.
Proof.
  induction a as [|c a IH]; simpl.
  - rewrite Ascii.eqb_refl. reflexivity.
  - destruct (Ascii.eqb c sep).
    + rewrite IH. reflexivity.
    + rewrite IH.
      destruct (split_on_not_nil sep a) as (piece & pieces & ->). reflexivity.
Qed.

Lemma path_value_append keys1 : forall keys2 j,
  path_value (keys1 ++ keys2)%list j =
  match path_value keys1 j with
  | Some sub => path_value keys2 sub
  | None => None
  end.
Proof.
  induction keys1 as [|k rest IH]; intros keys2 j; simpl; [reflexivity|].
  destruct (own_child k j); [apply IH | reflexivity].
Qed.

Lemma text_by_leaf B translations key fallback :
  key <> EmptyString ->
  text B translations (VStr key) fallback =
  match leaf_string (Str.split_on "." key) translations with
  | Some s => s
  | None => fallback_or fallback key
  end.
Proof.
  intros Hkey. rewrite (text_of_leaf B translations key fallback Hkey).
  rewrite walk_leaf. reflexivity.
Qed.

Lemma fallback_or_given fallback key :
  fallback <> EmptyString -> fallback_or fallback key = fallback.
Proof. destruct fallback; [contradiction | reflexivity]. Qed.

(** X1: before a table is loaded ([this.translations] is [{}]), every
    lookup answers with its fallback, or with the key when the fallback is
    empty; the names every object inherits ([toString], [constructor],
    [__proto__]) are no exception. *)
Theorem text_before_loading :
  forall (B : builtins) (key fallback : string),
    text B (JObj []) (VStr key) fallback = fallback_or fallback key.
Proof.
  intros B key fallback. destruct key as [|c key'].
  - destruct fallback; reflexivity.
  - rewrite text_by_leaf by discriminate.
    unfold leaf_string.
    destruct (split_on_not_nil "." (String c key')) as (piece & pieces & ->).
    reflexivity.
Qed.

(** X2: a key [k1.k2] is looked up by going to the value at [k1] and
    looking up [k2] there: when the table has a value at the path [k1], the
    answer is the leaf string at [k2] under that value, else the fallback (or
    the whole key); with a fallback and a non-empty [k2] it is the answer of
    [text] on that value taken as the table. *)
Theorem text_under_prefix :
  forall (B : builtins) (translations sub : json) (k1 k2 fallback : string),
    path_value (Str.split_on "." k1) translations = Some sub ->
    text B translations (VStr (k1 ++ "." ++ k2)) fallback
    = match leaf_string (Str.split_on "." k2) sub with
      | Some s => s
      | None => fallback_or fallback (k1 ++ "." ++ k2)
      end
    /\ (k2 <> EmptyString -> fallback <> EmptyString ->
        text B translations (VStr (k1 ++ "." ++ k2)) fallback
        = text B sub (VStr k2) fallback).
Proof.
  intros B translations sub k1 k2 fallback Hsub.
  assert (Hfull :
    text B translations (VStr (k1 ++ "." ++ k2)) fallback
    = match leaf_string (Str.split_on "." k2) sub with
      | Some s => s
      | None => fallback_or fallback (k1 ++ "." ++ k2)
      end).
  { rewrite text_by_leaf by (destruct k1; discriminate).
    change (k1 ++ "." ++ k2) with (k1 ++ String "." k2).
    unfold leaf_string. rewrite split_on_append, path_value_append, Hsub.
    reflexivity. }
  split; [exact Hfull|].
  intros Hk2 Hfb. rewrite Hfull, (text_by_leaf B sub k2 fallback Hk2).
  rewrite !fallback_or_given by exact Hfb. reflexivity.
Qed.

Lemma text_under_prefix_witness :
  text es2023 en_table (VStr ("main" ++ "." ++ "banner.title")) "none"
  = text es2023 (JObj [("banner", JObj [("title", JStr "Loft Interior Design")]);
                       ("welcome", JStr "Welcome {{name}}!");
                       ("search", JStr "Search")])
         (VStr "banner.title") "none".
Proof.
  apply (text_under_prefix es2023 en_table
           (JObj [("banner", JObj [("title", JStr "Loft Interior Design")]);
                  ("welcome", JStr "Welcome {{name}}!");
                  ("search", JStr "Search")])
           "main" "banner.title" "none").
  - reflexivity.
  - discriminate.
  - discriminate.
Defined.

(* ================================================================== *)
(** ** Interpolation on well-formed input *)

Lemma strip_prefix_has_char x p : forall s r,
  Str.strip_prefix p s = Some r -> has_char x p = true -> has_char x s = true.
Proof.
  induction p as [|a p IH]; intros s r Hs Hp; [discriminate|].
  destruct s as [|b s]; [discriminate|]. simpl in *.
  destruct (Ascii.eqb a b) eqn:Hab; [|discriminate].
  apply Ascii.eqb_eq in Hab. subst b.
  destruct (Ascii.eqb a x); [reflexivity|]. simpl in *.
  exact (IH s r Hs Hp).
Qed.

Lemma starts_with_has_char x p s :
  has_char x p = true -> Str.starts_with p s = true -> has_char x s = true.
Proof.
  unfold Str.starts_with. intros Hp Hs.
  destruct (Str.strip_prefix p s) as [r|] eqn:E; [|discriminate].
  exact (strip_prefix_has_char x p s r E Hp).
Qed.

Lemma has_char_drop x n : forall s,
  has_char x (Str.drop n s) = true -> has_char x s = true.
Proof.
  induction n as [|n IH]; intros s H; [destruct s; exact H|].
  destruct s as [|c s]; [exact H|]. simpl in *.
  rewrite (IH s H). apply orb_true_r.
Qed.

Lemma placeholder_has_close name : has_char "}" (placeholder name) = true.
Proof.
  unfold placeholder. rewrite !has_char_append. simpl.
  rewrite !orb_true_r. reflexivity.
Qed.

(** Every pattern the embedding interprets ends on a closing brace. *)
Lemma match_at_needs_close re s :
  has_char "}" s = false -> match_at re s = None.
Proof.
  intros Hs. destruct re as [name|lo hi]; unfold match_at.
  - destruct (Str.starts_with (placeholder name) s) eqn:E; [|reflexivity].
    rewrite (starts_with_has_char "}" _ s (placeholder_has_close name) E) in Hs.
    discriminate.
  - destruct (Str.starts_with "}" (Str.drop (leading_open s) s)) eqn:E.
    + assert (Hd : has_char "}" (Str.drop (leading_open s) s) = true)
        by (apply (starts_with_has_char "}" "}"); [reflexivity | exact E]).
      rewrite (has_char_drop _ _ _ Hd) in Hs. discriminate.
    + rewrite andb_false_r. reflexivity.
Qed.

Lemma replace_from_no_close re template s : forall before,
  has_char "}" s = false -> replace_from re template before 0 s = s.
Proof.
  induction s as [|c s IH]; intros before Hs; [reflexivity|].
  rewrite replace_from_no_match by (apply match_at_needs_close, Hs).
  simpl in Hs. apply orb_false_iff in Hs as [_ Hs].
  rewrite (IH _ Hs). reflexivity.
Qed.

Lemma fold_interpolate_none variables names :
  fold_left (interpolate_one variables) names None = None.
Proof. induction names as [|n names IH]; [reflexivity | exact IH]. Qed.

Lemma fold_interpolate_no_close variables names : forall t r,
  has_char "}" t = false ->
  fold_left (interpolate_one variables) names (Some t) = Some r -> r = t.
Proof.
  induction names as [|n names IH]; intros t r Ht; simpl.
  - intros [= <-]. reflexivity.
  - destruct (compile n) as [re|]; [|rewrite fold_interpolate_none; discriminate].
    destruct (obj_get n variables) as [v|];
      [|rewrite fold_interpolate_none; discriminate].
    unfold replace_all. rewrite (replace_from_no_close re v t _ Ht).
    apply IH, Ht.
Qed.

(** X3: a text without closing brace comes out of the interpolation as it
    went in, whatever the variables are. *)
Theorem textWithVars_without_placeholder :
  forall (B : builtins) (translations : json) (key : value)
         (variables : jsobject) (fallback r : string),
    has_char "}" (text B translations key fallback) = false ->
    textWithVars B translations key variables fallback = Some r ->
    r = text B translations key fallback.
Proof.
  intros B translations key variables fallback r Ht Hr.
  exact (fold_interpolate_no_close variables _ _ r Ht Hr).
Qed.

Lemma textWithVars_without_placeholder_witness :
  "Search" = text es2023 en_table (VStr "main.search") "".
Proof.
  apply (textWithVars_without_placeholder es2023 en_table (VStr "main.search")
           [("name", "Ana"); ("0", "zero"); ("n,", "$&")] "" "Search").
  - reflexivity.
  - reflexivity.
Defined.

Lemma replace_from_at_placeholder name v before rest :
  no_dollar v = true ->
  replace_from (Verbatim name) v before 0 (placeholder name ++ rest)
  = v ++ replace_from (Verbatim name) v (before ++ placeholder name) 0 rest.
Proof.
  intros Hv.
  assert (Hmatch : match_at (Verbatim name) (placeholder name ++ rest)
                   = Some (String.length (placeholder name))).
  { unfold match_at. rewrite starts_with_append. reflexivity. }
  set (tail := String "{" (name ++ "}}")).
  change (placeholder name) with (String "{" tail) in *.
  change (String "{" tail ++ rest) with (String "{" (tail ++ rest)) in *.
  change (String.length (String "{" tail)) with (S (String.length tail)) in Hmatch.
  rewrite (replace_from_match _ _ _ _ _ _ Hmatch).
  rewrite (expand_no_dollar v _ _ _ Hv). f_equal.
  rewrite (replace_from_skip (Verbatim name) v tail).
  rewrite append_assoc_s. reflexivity.
Qed.

Lemma replace_from_join name v pieces : forall first before,
  no_dollar v = true ->
  forallb no_open (first :: pieces) = true ->
  replace_from (Verbatim name) v before 0 (join (placeholder name) (first :: pieces))
  = join v (first :: pieces).
Proof.
  induction pieces as [|second more IH]; intros first before Hv Hall.
  - simpl in *. rewrite andb_true_r in Hall.
    rewrite <- (append_nil_r_s first) at 1.
    rewrite (replace_from_no_open name v first _ "" Hall).
    simpl. apply append_nil_r_s.
  - change (join (placeholder name) (first :: second :: more))
      with (first ++ placeholder name ++ join (placeholder name) (second :: more)).
    change (join v (first :: second :: more))
      with (first ++ v ++ join v (second :: more)).
    simpl forallb in Hall. apply andb_true_iff in Hall as [Hfirst Hrest].
    rewrite (replace_from_no_open name v first _ _ Hfirst). f_equal.
    rewrite (replace_from_at_placeholder name v _ _ Hv). f_equal.
    apply IH; assumption.
Qed.

(** X4: for a variable whose name is a pattern of its own (no character
    of the regular expression syntax, and not digits, digits and a comma, or
    digits, a comma and digits, which between the braces read as a
    quantifier) and whose value has no [$], interpolation with that variable
    replaces every occurrence of its placeholder by the value: a text made of
    pieces without opening brace joined by [{{name}}] becomes the same pieces
    joined by the value. *)
Theorem textWithVars_every_occurrence :
  forall (B : builtins) (translations : json) (key : value)
         (fallback name v : string) (pieces : list string),
    literal_name name = true ->
    no_dollar v = true ->
    forallb no_open pieces = true ->
    text B translations key fallback = join (placeholder name) pieces ->
    textWithVars B translations key [(name, v)] fallback = Some (join v pieces).
Proof.
  intros B translations key fallback name v pieces Hliteral Hv Hall Htext.
  pose proof (literal_compile name Hliteral) as Hname.
  unfold textWithVars, object_keys. simpl.
  rewrite (verbatim_not_index name name Hname). simpl.
  rewrite Htext, Hname, String.eqb_refl. f_equal.
  destruct pieces as [|first more]; [reflexivity|].
  apply replace_from_join; assumption.
Qed.

Lemma textWithVars_every_occurrence_witness :
  textWithVars es2023 (JObj [("msg", JStr "Hi {{n}}, {{n}}!")]) (VStr "msg")
    [("n", "Sam")] ""
  = Some (join "Sam" ["Hi "; ", "; "!"]).
Proof.
  apply (textWithVars_every_occurrence es2023
           (JObj [("msg", JStr "Hi {{n}}, {{n}}!")]) (VStr "msg") "" "n" "Sam"
           ["Hi "; ", "; "!"]); reflexivity.
Defined.

(* ================================================================== *)
(** ** What the inline scan writes *)

Lemma substring_drop n : forall s, substring 0 n s ++ Str.drop n s = s.
Proof.
  induction n as [|n IH]; intros s.
  - destruct s; reflexivity.
  - destruct s as [|c s]; [reflexivity|]. simpl. rewrite IH. reflexivity.
Qed.

Lemma text_unresolved B table key matched :
  matched <> EmptyString -> unresolved table key = true ->
  text B table (VStr key) matched = matched.
Proof.
  intros Hm Hu. destruct key as [|c key']; [reflexivity|].
  rewrite text_by_leaf by discriminate.
  unfold unresolved in Hu.
  destruct (leaf_string (Str.split_on "." (String c key')) table); [discriminate|].
  apply fallback_or_given, Hm.
Qed.

Lemma replace_markers_unresolved B table s : forall skip,
  forallb (unresolved table) (marker_keys_from skip s) = true ->
  replace_markers_from (fun matched key => text B table (VStr key) matched) skip s
  = Str.drop skip s.
Proof.
  induction s as [|c rest IH]; intros skip Hall.
  - destruct skip; reflexivity.
  - destruct skip as [|k]; [|exact (IH k Hall)].
    simpl in Hall |- *.
    destruct (marker_at (String c rest)) as [[key [|n]]|].
    + rewrite (IH 0 Hall). destruct rest; reflexivity.
    + simpl in Hall. apply andb_true_iff in Hall as [Hkey Hall].
      rewrite (IH n Hall), text_unresolved by (discriminate || exact Hkey).
      simpl. rewrite substring_drop. reflexivity.
    + rewrite (IH 0 Hall). destruct rest; reflexivity.
Qed.

Lemma unresolved_in_empty_table keys :
  forallb (unresolved (JObj [])) keys = true.
Proof.
  induction keys as [|k keys IH]; [reflexivity|]. simpl. rewrite IH.
  unfold unresolved, leaf_string.
  destruct (split_on_not_nil "." k) as (piece & pieces & ->). reflexivity.
Qed.

(** X5: a marker whose key has no leaf string in the table is left in the
    markup as it is written: when none of the markers of the original markup
    resolves, the scan writes the original markup back; so it is for every
    marker while no table is loaded. *)
Theorem translate_inline_unresolved :
  forall (H : html) (B : builtins) (table : json) (el : element),
    hasAttribute "data-translate-inline" el = true ->
    (forallb (unresolved table) (marker_keys (original_of el)) = true ->
     innerHTML (translate_inline H B table el)
     = if has_markers (original_of el) then reparse H (original_of el)
       else innerHTML el)
    /\ innerHTML (translate_inline H B (JObj []) el)
       = if has_markers (original_of el) then reparse H (original_of el)
         else innerHTML el.
Proof.
  intros H B table el Hflag.
  assert (Hgen : forall t,
    forallb (unresolved t) (marker_keys (original_of el)) = true ->
    innerHTML (translate_inline H B t el)
    = if has_markers (original_of el) then reparse H (original_of el)
      else innerHTML el).
  { intros t Hall. rewrite (translate_inline_cases H B t el Hflag). cbv zeta.
    destruct (has_markers (original_of el)).
    - simpl. unfold substituted, replace_markers.
      rewrite (replace_markers_unresolved B t _ 0 Hall).
      destruct (original_of el); reflexivity.
    - destruct (Str.is_empty (or_empty (getAttribute "data-original-content" el)));
        reflexivity. }
  split; [apply Hgen|]. apply Hgen, unresolved_in_empty_table.
Qed.

Lemma translate_inline_unresolved_witness :
  innerHTML
    (translate_inline plain_html es2023 en_table
       {| tagName := "P"; input_type := "";
          attributes := [("data-translate-inline", "")];
          innerHTML := "{{main.missing}} and {{main.banner}}" |})
  = "{{main.missing}} and {{main.banner}}".
Proof.
  apply (proj1 (translate_inline_unresolved plain_html es2023 en_table
                  {| tagName := "P"; input_type := "";
                     attributes := [("data-translate-inline", "")];
                     innerHTML := "{{main.missing}} and {{main.banner}}" |}
                  eq_refl)).
  reflexivity.
Defined.

Lemma length_append_s a b :
  String.length (a ++ b) = String.length a + String.length b.
Proof. induction a as [|c a IH]; simpl; [reflexivity | rewrite IH; reflexivity]. Qed.

Lemma until_close_key key rest :
  has_char "}" key = false -> until_close (key ++ String "}" rest) = key.
Proof.
  induction key as [|c key IH]; simpl; [reflexivity|].
  intros Hk. apply orb_false_iff in Hk as [Hc Hk].
  rewrite Hc, (IH Hk). reflexivity.
Qed.

Lemma drop_append m q : Str.drop (String.length m) (m ++ q) = q.
Proof. induction m as [|c m IH]; simpl; [destruct q; reflexivity | exact IH]. Qed.

Lemma marker_at_placeholder key rest :
  key <> EmptyString -> has_char "}" key = false ->
  marker_at (placeholder key ++ rest)
  = Some (key, S (String.length (String "{" (key ++ "}}")))).
Proof.
  intros Hne Hk. unfold marker_at, placeholder.
  rewrite !append_assoc_s, strip_prefix_append.
  change ("}}" ++ rest) with (String "}" (String "}" rest)).
  rewrite (until_close_key key _ Hk), drop_append.
  destruct key as [|c key']; [contradiction|].
  cbn [Str.is_empty negb andb].
  change (Str.starts_with "}}" (String "}" (String "}" rest))) with true.
  cbv iota. f_equal. f_equal.
  simpl. rewrite length_append_s. simpl. f_equal. f_equal. lia.
Qed.

Lemma marker_at_not_open c s :
  Ascii.eqb c "{" = false -> marker_at (String c s) = None.
Proof. each_char c; try reflexivity; discriminate. Qed.

Section Markers.

Variable callback : string -> string -> string.

Lemma replace_markers_skip m : forall q,
  replace_markers_from callback (String.length m) (m ++ q)
  = replace_markers_from callback 0 q.
Proof.
  induction m as [|c m IH]; intros q; simpl; [destruct q; reflexivity | apply IH].
Qed.

Lemma replace_markers_no_open p : forall rest,
  no_open p = true ->
  replace_markers_from callback 0 (p ++ rest)
  = p ++ replace_markers_from callback 0 rest.
Proof.
  unfold no_open. induction p as [|c p IH]; intros rest Hp; [reflexivity|].
  simpl in Hp. apply andb_true_iff in Hp as [Hc Hp]. apply negb_true_iff in Hc.
  change (String c p ++ rest) with (String c (p ++ rest)).
  cbn [replace_markers_from]. rewrite (marker_at_not_open c _ Hc).
  rewrite (IH _ Hp). reflexivity.
Qed.

Lemma replace_markers_at_placeholder key rest :
  key <> EmptyString -> has_char "}" key = false ->
  replace_markers_from callback 0 (placeholder key ++ rest)
  = callback (placeholder key) key ++ replace_markers_from callback 0 rest.
Proof.
  intros Hne Hk.
  pose proof (marker_at_placeholder key rest Hne Hk) as Hm.
  set (tail := String "{" (key ++ "}}")) in *.
  change (placeholder key) with (String "{" tail) in *.
  change (String "{" tail ++ rest) with (String "{" (tail ++ rest)) in *.
  cbn [replace_markers_from]. rewrite Hm.
  change (String "{" (tail ++ rest)) with (String "{" tail ++ rest).
  change (S (String.length tail)) with (String.length (String "{" tail)).
  rewrite substring_prefix.
  change (String.length (String "{" tail)) with (S (String.length tail)).
  cbv iota. rewrite replace_markers_skip. reflexivity.
Qed.

(** The markers of well-formed markup are replaced one by one, each by what
    the callback answers for it, and the text between them stays. *)
Lemma replace_markers_weave rest : forall first,
  no_open first = true ->
  forallb (fun p => negb (Str.is_empty (fst p)) && negb (has_char "}" (fst p))
                    && no_open (snd p)) rest = true ->
  replace_markers callback (weave placeholder first rest)
  = weave (fun key => callback (placeholder key) key) first rest.
Proof.
  unfold replace_markers.
  induction rest as [|[key stretch] more IH]; intros first Hfirst Hall.
  - simpl. rewrite <- (append_nil_r_s first) at 1.
    rewrite (replace_markers_no_open first "" Hfirst). simpl.
    apply append_nil_r_s.
  - simpl in Hall. apply andb_true_iff in Hall as [Hhere Hall].
    apply andb_true_iff in Hhere as [Hkey Hstretch].
    apply andb_true_iff in Hkey as [Hne Hclose].
    apply negb_true_iff in Hne, Hclose.
    cbn [weave].
    rewrite (replace_markers_no_open first _ Hfirst). f_equal.
    rewrite replace_markers_at_placeholder
      by (try exact Hclose; intros ->; discriminate).
    f_equal. apply IH; assumption.
Qed.

End Markers.

Lemma includes_at p a s :
  Str.starts_with p s = true -> Str.includes p (a ++ s) = true.
Proof.
  intros Hs. induction a as [|c a IH]; simpl.
  - destruct s; simpl; rewrite Hs; reflexivity.
  - rewrite IH. apply orb_true_r.
Qed.

Lemma weave_has_markers first key stretch more :
  has_markers (weave placeholder first ((key, stretch) :: more)) = true.
Proof.
  unfold has_markers. cbn [weave].
  change (placeholder key) with ("{{" ++ key ++ "}}").
  apply andb_true_iff. split.
  - apply includes_at. rewrite append_assoc_s. apply starts_with_append.
  - replace (first ++ ("{{" ++ key ++ "}}") ++ weave placeholder stretch more)
      with ((first ++ "{{" ++ key) ++ "}}" ++ weave placeholder stretch more)
      by (rewrite !append_assoc_s; reflexivity).
    apply includes_at, starts_with_append.
Qed.

(** X6: the scan of an element whose original markup is text without
    opening brace interleaved with markers [{{key}}] writes the same text with
    each marker replaced by the answer of [text] for its key, the marker
    itself being the fallback. *)
Theorem translate_inline_weave :
  forall (H : html) (B : builtins) (table : json) (el : element)
         (first : string) (rest : list (string * string)),
    hasAttribute "data-translate-inline" el = true ->
    original_of el = weave placeholder first rest ->
    rest <> [] ->
    no_open first = true ->
    forallb (fun p => negb (Str.is_empty (fst p)) && negb (has_char "}" (fst p))
                      && no_open (snd p)) rest = true ->
    innerHTML (translate_inline H B table el)
    = reparse H
        (weave (fun key => text B table (VStr key) (placeholder key)) first rest).
Proof.
  intros H B table el first rest Hflag Horig Hrest Hfirst Hall.
  rewrite (translate_inline_cases H B table el Hflag). cbv zeta.
  rewrite Horig.
  destruct rest as [|[key stretch] more]; [contradiction|].
  rewrite weave_has_markers. simpl innerHTML. unfold substituted.
  rewrite (replace_markers_weave _ _ first Hfirst Hall). reflexivity.
Qed.

Lemma translate_inline_weave_witness :
  innerHTML
    (translate_inline plain_html es2023 en_table
       {| tagName := "DIV"; input_type := "";
          attributes := [("data-translate-inline", "")];
          innerHTML := "<b>{{main.banner.title}}</b> {{main.missing}}" |})
  = weave (fun key => text es2023 en_table (VStr key) (placeholder key))
      "<b>" [("main.banner.title", "</b> "); ("main.missing", "")].
Proof.
  apply (translate_inline_weave plain_html es2023 en_table
           {| tagName := "DIV"; input_type := "";
              attributes := [("data-translate-inline", "")];
              innerHTML := "<b>{{main.banner.title}}</b> {{main.missing}}" |}
           "<b>" [("main.banner.title", "</b> "); ("main.missing", "")]);
    solve [reflexivity | discriminate].
Defined.

(* ================================================================== *)
(** ** Loading, start-up and switching: what is kept and what is written *)

Lemma detect_supported e : supported (detectLanguage e) = true.
Proof.
  unfold detectLanguage. destruct (hash_code e) as [d|].
  - destruct (supported d) eqn:Hd; [exact Hd | apply from_query_supported].
  - apply from_query_supported.
Qed.

(** A load touches neither the page nor its surroundings. *)
Lemma loadTranslations_frame net w :
  env (state_of (loadTranslations net w)) = env w
  /\ page (state_of (loadTranslations net w)) = page w
  /\ pushed (state_of (loadTranslations net w)) = pushed w.
Proof.
  unfold loadTranslations.
  destruct (net (language_file (currentLanguage w))); simpl; [repeat split|].
  destruct (String.eqb (currentLanguage w) "en"); simpl; [repeat split|].
  destruct (net "languages/en.json"); repeat split.
Qed.

(** X7: after a fulfilled load the installed table is the one the server
    has for the language that is then current, with one exception: when the
    default language was the one asked for and its table could not be
    loaded, the table installed before stays, whatever its language. *)
Theorem loadTranslations_installed :
  forall (net : server) (w w' : world),
    loadTranslations net w = Fulfilled w' ->
    net (language_file (currentLanguage w')) = Some (translations w')
    \/ (currentLanguage w = "en" /\ net "languages/en.json" = None
        /\ currentLanguage w' = "en" /\ translations w' = translations w).
Proof.
  intros net w w'. unfold loadTranslations.
  destruct (net (language_file (currentLanguage w))) as [t|] eqn:Hfirst; simpl.
  - intros [= <-]. left. exact Hfirst.
  - destruct (String.eqb (currentLanguage w) "en") eqn:Hen; simpl.
    + intros [= <-]. right. apply String.eqb_eq in Hen.
      rewrite Hen in Hfirst. repeat split; assumption.
    + destruct (net "languages/en.json") as [t|] eqn:Hsecond; [|discriminate].
      intros [= <-]. left. exact Hsecond.
Qed.

Lemma loadTranslations_installed_witness :
  site (language_file (currentLanguage (state_of
          (loadTranslations site (with_language "fr" sample_world)))))
  = Some (translations (state_of
          (loadTranslations site (with_language "fr" sample_world))))
  \/ (currentLanguage (with_language "fr" sample_world) = "en"
      /\ site "languages/en.json" = None
      /\ currentLanguage (state_of
           (loadTranslations site (with_language "fr" sample_world))) = "en"
      /\ translations (state_of
           (loadTranslations site (with_language "fr" sample_world)))
         = translations (with_language "fr" sample_world)).
Proof.
  apply (loadTranslations_installed site (with_language "fr" sample_world)).
  reflexivity.
Defined.


(** A fulfilled switch, step by step. *)
Lemma switchLanguage_fulfilled H B net c w w' :
  c <> currentLanguage w ->
  switchLanguage H B net c w = Some (Fulfilled w') ->
  exists w1 d,
    loadTranslations net (with_language c w) = Fulfilled w1
    /\ updateContent_doc H B (currentLanguage w1) (translations w1)
         (updatePageLanguage_doc (currentLanguage w1) (page w)) = Some d
    /\ currentLanguage w' = currentLanguage w1
    /\ translations w' = translations w1
    /\ env w' = set_lang_parameter c (save_preference c (env w))
    /\ page w' = updateLanguageSelectors (currentLanguage w1) d
    /\ requests w' = requests w1
    /\ pushed w' = (pushed w ++ [href (env w')])%list.
Proof.
  intros Hne. unfold switchLanguage.
  apply String.eqb_neq in Hne. rewrite Hne.
  pose proof (loadTranslations_frame net (with_language c w)) as (Henv & Hpage & Hpushed).
  destruct (loadTranslations net (with_language c w)) as [w1|w1] eqn:Hload;
    [|discriminate].
  simpl in Henv, Hpage, Hpushed.
  unfold updateContent, updatePageLanguage. simpl. rewrite Hpage.
  destruct (updateContent_doc H B (currentLanguage w1) (translations w1)
              (updatePageLanguage_doc (currentLanguage w1) (page w)))
    as [d|] eqn:Hscan; [|discriminate].
  intros [= <-]. exists w1, d. simpl. rewrite Henv, Hpushed.
  repeat split. exact Hscan.
Qed.

Lemma get_remove_other name other params :
  name <> other -> Url.get name (Url.remove other params) = Url.get name params.
Proof.
  intros Hne. induction params as [|[n v] rest IH]; [reflexivity|].
  unfold Url.remove in *. simpl.
  destruct (String.eqb n other) eqn:Ho; simpl.
  - apply String.eqb_eq in Ho. subst n.
    destruct (String.eqb other name) eqn:E; [|exact IH].
    apply String.eqb_eq in E. subst. contradiction.
  - rewrite IH. reflexivity.
Qed.

Lemma get_set_other name other v params :
  name <> other -> Url.get name (Url.set other v params) = Url.get name params.
Proof.
  intros Hne. induction params as [|[n w] rest IH]; simpl.
  - destruct (String.eqb other name) eqn:E; [|reflexivity].
    apply String.eqb_eq in E. subst. contradiction.
  - destruct (String.eqb n other) eqn:Ho; simpl.
    + apply String.eqb_eq in Ho. subst n.
      destruct (String.eqb other name) eqn:E.
      * apply String.eqb_eq in E. subst. contradiction.
      * apply get_remove_other, Hne.
    + rewrite IH. reflexivity.
Qed.

(** X8: a completed switch rewrites the [lang] parameter and nothing else
    of the URL: the parameters of the new query are those of the old one with
    [lang] set (the first [lang] takes the code, further ones go, the others
    keep their place and value), every other parameter reads as before, the
    path and the fragment are unchanged, and one history entry is pushed, for
    the new URL. *)
Theorem switchLanguage_url :
  forall (H : html) (B : builtins) (net : server) (c : string) (w w' : world),
    c <> currentLanguage w ->
    switchLanguage H B net c w = Some (Fulfilled w') ->
    Url.search_params (search (env w'))
    = Url.set "lang" c (Url.search_params (search (env w)))
    /\ (forall name, name <> "lang" ->
          Url.get name (Url.search_params (search (env w')))
          = Url.get name (Url.search_params (search (env w))))
    /\ pathname (env w') = pathname (env w)
    /\ hash (env w') = hash (env w)
    /\ pushed w'
       = (pushed w
          ++ [(pathname (env w) ++ search (env w') ++ hash (env w))%string])%list.
Proof.
  intros H B net c w w' Hne Hswitch.
  destruct (switchLanguage_fulfilled H B net c w w' Hne Hswitch)
    as (w1 & d & _ & _ & _ & _ & Henv & _ & _ & Hpushed).
  assert (Hparams : Url.search_params (search (env w'))
                    = Url.set "lang" c (Url.search_params (search (env w)))).
  { rewrite Henv. simpl. apply search_params_search_of. }
  split; [exact Hparams|]. split.
  - intros name Hname. rewrite Hparams. apply get_set_other, Hname.
  - rewrite Hpushed. unfold href. rewrite Henv. simpl. repeat split.
Qed.

Lemma switchLanguage_url_witness :
  Url.search_params (search (env after_switch_es)) = [("page", "2"); ("lang", "es")]
  /\ pushed after_switch_es = ["/index.html?page=2&lang=es"].
Proof.
  destruct (switchLanguage_url plain_html es2023 site "es" sample_world
              after_switch_es)
    as (Hparams & _ & _ & _ & Hpushed).
  - discriminate.
  - vm_compute. reflexivity.
  - split; [exact Hparams | exact Hpushed].
Defined.

(** X9: the language a completed switch leaves behind is the one the next
    page load resolves, provided the code is supported and the fragment holds
    no supported marker: from the URL the switch wrote, and also, by the
    stored preference, from a URL without fragment marker and [lang]
    parameter.  A supported marker in the fragment keeps the upper hand. *)
Theorem switchLanguage_then_detect :
  forall (H : html) (B : builtins) (net : server) (c : string) (w w' : world),
    c <> currentLanguage w ->
    switchLanguage H B net c w = Some (Fulfilled w') ->
    supported c = true ->
    (offer (hash_code (env w)) = None -> detectLanguage (env w') = c)
    /\ (forall e, preferred_language e = preferred_language (env w') ->
          offer (hash_code e) = None -> offer (query_code e) = None ->
          detectLanguage e = c)
    /\ (forall d, offer (hash_code (env w)) = Some d -> detectLanguage (env w') = d).
Proof.
  intros H B net c w w' Hne Hswitch Hc.
  destruct (switchLanguage_fulfilled H B net c w w' Hne Hswitch)
    as (w1 & d & _ & _ & _ & _ & Henv & _ & _ & _).
  assert (Hhash : hash_code (env w') = hash_code (env w))
    by (rewrite Henv; reflexivity).
  assert (Hquery : query_code (env w') = Some c)
    by (rewrite Henv; apply query_code_after_set).
  assert (Hsaved : preferred_language (env w') = Some c)
    by (rewrite Henv; reflexivity).
  split; [|split].
  - intros Hsilent. rewrite <- Hhash in Hsilent.
    rewrite (detect_silent _ Hsilent). apply from_query_offer.
    rewrite Hquery. simpl. rewrite Hc. reflexivity.
  - intros e Hpref Hh Hq.
    rewrite (detect_silent e Hh), (from_query_silent e Hq).
    apply from_storage_offer. unfold saved_code. rewrite Hpref, Hsaved.
    simpl. rewrite Hc. reflexivity.
  - intros d' Hd. apply detect_offer. rewrite Hhash. exact Hd.
Qed.

Lemma switchLanguage_then_detect_witness :
  detectLanguage (env after_switch_es) = "es"
  /\ detectLanguage
       {| hash := ""; search := ""; pathname := "/about.html";
          preferred_language := preferred_language (env after_switch_es);
          navigator_language := "en-US" |} = "es".
Proof.
  destruct (switchLanguage_then_detect plain_html es2023 site "es" sample_world
              after_switch_es)
    as (Hurl & Hstored & _).
  - discriminate.
  - vm_compute. reflexivity.
  - reflexivity.
  - split.
    + apply Hurl. reflexivity.
    + apply Hstored; reflexivity.
Defined.

(** X10: a switch to a code other than the current one and other than
    the default, when the table of the code and, on the retry, the table of
    the default both fail to load, is rejected at the load, before anything
    is shown or stored: the page (its language attribute and selectors
    included), the preference, the URL and the history are as before, the
    table too, while the current language is already the default and both
    requests were made. *)
Theorem switchLanguage_rejected :
  forall (H : html) (B : builtins) (net : server) (c : string) (w : world),
    c <> currentLanguage w -> c <> "en" ->
    net (language_file c) = None -> net "languages/en.json" = None ->
    exists w',
      switchLanguage H B net c w = Some (Rejected w')
      /\ currentLanguage w' = "en" /\ translations w' = translations w
      /\ page w' = page w /\ env w' = env w /\ pushed w' = pushed w
      /\ requests w' = (requests w ++ [language_file c; "languages/en.json"])%list.
Proof.
  intros H B net c w Hcur Hen Hfirst Hsecond.
  apply String.eqb_neq in Hcur, Hen.
  unfold switchLanguage. rewrite Hcur.
  unfold loadTranslations. simpl. rewrite Hfirst. simpl. rewrite Hen. simpl.
  rewrite Hsecond. eexists. split; [reflexivity|]. simpl.
  rewrite <- app_assoc. repeat split.
Qed.

Lemma switchLanguage_rejected_witness :
  exists w',
    switchLanguage plain_html es2023 offline "es" sample_world = Some (Rejected w')
    /\ currentLanguage w' = "en" /\ translations w' = translations sample_world
    /\ page w' = page sample_world /\ env w' = env sample_world
    /\ pushed w' = pushed sample_world
    /\ requests w'
       = (requests sample_world ++ [language_file "es"; "languages/en.json"])%list.
Proof.
  apply (switchLanguage_rejected plain_html es2023 offline "es" sample_world);
    solve [discriminate | reflexivity].
Defined.

(** X11: start-up.  When the constructor's [init] is fulfilled, the
    current language is a supported code (the resolved one, or the default
    after a failed load), the language attribute of the document says so, the
    first request was for the resolved language, and neither the preference
    nor the URL has been written.  When the resolved language is not the
    default and its table and the table of the default both fail to load,
    [init] is rejected at the load: the page is as it was served, the table
    is still empty, the current language is the default and nothing has been
    written. *)
Theorem construct_outcome :
  forall (H : html) (B : builtins) (net : server) (e : environment)
         (d : document),
    (forall w', construct H B net e d = Some (Fulfilled w') ->
       supported (getCurrentLanguage w') = true
       /\ (getCurrentLanguage w' = detectLanguage e \/ getCurrentLanguage w' = "en")
       /\ lang (page w') = getCurrentLanguage w'
       /\ hd_error (requests w') = Some (language_file (detectLanguage e))
       /\ env w' = e /\ pushed w' = [])
    /\ (detectLanguage e <> "en" ->
        net (language_file (detectLanguage e)) = None ->
        net "languages/en.json" = None ->
        exists w', construct H B net e d = Some (Rejected w')
          /\ getCurrentLanguage w' = "en" /\ getTranslations w' = JObj []
          /\ page w' = d /\ env w' = e /\ pushed w' = []
          /\ requests w'
             = [language_file (detectLanguage e); "languages/en.json"]).
Proof.
  intros H B net e d. unfold construct, init, getCurrentLanguage, getTranslations.
  set (w0 := {| currentLanguage := detectLanguage e; translations := JObj [];
                env := e; page := d; requests := []; logged := 0; pushed := [] |}).
  split.
  - intros w'.
    destruct (loadTranslations net w0) as [w1|w1] eqn:Hload; [|discriminate].
    assert (Hcur : (currentLanguage w1 = detectLanguage e \/ currentLanguage w1 = "en")
                   /\ hd_error (requests w1) = Some (language_file (detectLanguage e))
                   /\ env w1 = e /\ pushed w1 = [] /\ page w1 = d).
    { revert Hload. unfold loadTranslations. simpl.
      destruct (net (language_file (detectLanguage e))); simpl.
      - intros [= <-]. simpl. repeat split. left. reflexivity.
      - destruct (String.eqb (detectLanguage e) "en") eqn:Hen; simpl.
        + intros [= <-]. simpl. repeat split. left. reflexivity.
        + destruct (net "languages/en.json"); [|discriminate].
          intros [= <-]. simpl. repeat split. right. reflexivity. }
    destruct Hcur as (Hcur & Hreq & Henv & Hpushed & Hpage).
    unfold updateContent, updatePageLanguage. simpl.
    destruct (updateContent_doc H B (currentLanguage w1) (translations w1)
                (updatePageLanguage_doc (currentLanguage w1) (page w1)))
      as [d'|] eqn:Hscan; [|discriminate].
    intros [= <-]. simpl.
    split.
    { destruct Hcur as [-> | ->]; [apply detect_supported | reflexivity]. }
    split; [exact Hcur|]. split.
    { unfold updateContent_doc in Hscan.
      apply autoTranslateElements_lang in Hscan. exact Hscan. }
    repeat split; assumption.
  - intros Hen Hfirst Hsecond. apply String.eqb_neq in Hen.
    unfold loadTranslations. simpl. rewrite Hfirst. simpl. rewrite Hen. simpl.
    rewrite Hsecond. eexists. split; [reflexivity|]. simpl. repeat split.
Qed.

Lemma construct_outcome_witness :
  (supported (getCurrentLanguage after_construct) = true
   /\ lang (page after_construct) = getCurrentLanguage after_construct
   /\ env after_construct = from_browser_on)
  /\ exists w', construct plain_html es2023 offline from_browser_on sample_page
                = Some (Rejected w')
               /\ getCurrentLanguage w' = "en" /\ page w' = sample_page.
Proof.
  split.
  - destruct (proj1 (construct_outcome plain_html es2023 site from_browser_on
                       sample_page) after_construct)
      as (Hsup & _ & Hlang & _ & Henv & _).
    + vm_compute. reflexivity.
    + split; [exact Hsup|]. split; [exact Hlang | exact Henv].
  - destruct (proj2 (construct_outcome plain_html es2023 offline from_browser_on
                       sample_page))
      as (w' & Hw & Hcur & _ & Hpage & _).
    + discriminate.
    + reflexivity.
    + reflexivity.
    + exists w'. split; [exact Hw|]. split; [exact Hcur | exact Hpage].
Defined.

(* ================================================================== *)
(** ** What the scan of the document keeps *)



Lemma kept_refl el : kept el el.
Proof. repeat split. Qed.

Lemma kept_trans a b c : kept a b -> kept b c -> kept a c.
Proof.
  intros (Ht & Hi & Ha) (Ht' & Hi' & Ha'). repeat split.
  - rewrite Ht'. exact Ht.
  - rewrite Hi'. exact Hi.
  - intros name H1 H2. rewrite (Ha' name H1 H2). apply Ha; assumption.
Qed.

Lemma kept_with_content c el : kept el (with_content c el).
Proof. repeat split. Qed.

Lemma kept_setAttribute name v el :
  name = "placeholder" \/ name = "data-original-content" ->
  kept el (setAttribute name v el).
Proof.
  intros Hname. repeat split. intros other H1 H2.
  unfold getAttribute. simpl. apply attr_get_set_other.
  destruct Hname as [-> | ->]; intros <-; contradiction.
Qed.

Lemma translate_data_attribute_kept H B t el :
  kept el (translate_data_attribute H B t el).
Proof.
  unfold translate_data_attribute.
  destruct (getAttribute "data-translate" el); [|apply kept_refl].
  destruct (String.eqb (tagName el) "INPUT" && String.eqb (input_type el) "text").
  - apply kept_setAttribute. left. reflexivity.
  - destruct (hasAttribute "data-translate-html" el); apply kept_with_content.
Qed.

Lemma translate_template_kept H B t el el' :
  translate_template H B t el = Some el' -> kept el el'.
Proof.
  unfold translate_template.
  destruct (getAttribute "data-translate-template" el).
  - destruct (textWithVars _ _ _ _ _); [|discriminate].
    intros [= <-]. destruct (hasAttribute "data-translate-html" el);
      apply kept_with_content.
  - intros [= <-]. apply kept_refl.
Qed.

Lemma translate_inline_kept H B t el : kept el (translate_inline H B t el).
Proof.
  destruct (hasAttribute "data-translate-inline" el) eqn:Hflag.
  - rewrite (translate_inline_cases H B t el Hflag). cbv zeta.
    destruct (has_markers (original_of el));
      destruct (Str.is_empty (or_empty (getAttribute "data-original-content" el))).
    + eapply kept_trans; [|apply kept_with_content].
      apply kept_setAttribute. right. reflexivity.
    + apply kept_with_content.
    + apply kept_setAttribute. right. reflexivity.
    + apply kept_refl.
  - unfold translate_inline. rewrite Hflag. apply kept_refl.
Qed.

(** X12: each of the three steps of the scan, and the three in turn,
    change of the element they are applied to nothing but its content, its
    [placeholder] attribute and its [data-original-content] attribute: the
    tag, the type and every other attribute, the markers among them, are
    kept. *)
Theorem scan_element_keeps :
  forall (H : html) (B : builtins) (t : json) (el : element),
    kept el (translate_data_attribute H B t el)
    /\ (forall el', translate_template H B t el = Some el' -> kept el el')
    /\ kept el (translate_inline H B t el)
    /\ (forall y, scan_element H B t el = Some y -> kept el y).
Proof.
  intros H B t el. split; [|split; [|split]].
  - apply translate_data_attribute_kept.
  - intros el'. apply translate_template_kept.
  - apply translate_inline_kept.
  - intros y. unfold scan_element.
    destruct (translate_template H B t (translate_data_attribute H B t el))
      as [e2|] eqn:He2; [|discriminate].
    simpl. intros [= <-].
    eapply kept_trans; [apply translate_data_attribute_kept|].
    eapply kept_trans; [exact (translate_template_kept H B t _ _ He2)|].
    apply translate_inline_kept.
Qed.

Lemma scan_element_keeps_witness :
  tagName welcome_scanned = "P"
  /\ getAttribute "data-translate-template" welcome_scanned = Some "main.welcome"
  /\ getAttribute "data-var-name" welcome_scanned = Some "Ana".
Proof.
  destruct (proj2 (proj2 (proj2 (scan_element_keeps plain_html es2023 es_table
                                   welcome_paragraph)))
              welcome_scanned)
    as (Htag & _ & Hattr).
  - vm_compute. reflexivity.
  - split; [exact Htag|]. split; apply Hattr; discriminate.
Defined.

(* ================================================================== *)
(** ** Scanning again *)



(** Attributes whose name does not start with [data-var-] do not count
    for the variables of a template. *)
Lemma template_variables_attr_set name v attrs : forall variables,
  Str.strip_prefix "data-var-" name = None ->
  template_variables (attr_set name v attrs) variables
  = template_variables attrs variables.
Proof.
  induction attrs as [|[n w] rest IH]; intros variables Hname;
    cbn [attr_set template_variables].
  - rewrite Hname. reflexivity.
  - destruct (String.eqb n name) eqn:E; cbn [template_variables].
    + apply String.eqb_eq in E. subst n. rewrite Hname. reflexivity.
    + destruct (Str.strip_prefix "data-var-" n); apply IH, Hname.
Qed.

Section Rescan.

Variables (H : html) (B : builtins) (t : json).

Let template := translate_template H B t.
Let inline := translate_inline H B t.




Lemma inline_attribute name el :
  name <> "data-original-content" ->
  getAttribute name (inline el) = getAttribute name el.
Proof.
  intros Hname. unfold inline.
  destruct (hasAttribute "data-translate-inline" el) eqn:Hflag.
  - rewrite (translate_inline_cases H B t el Hflag). cbv zeta.
    unfold getAttribute.
    destruct (has_markers (original_of el));
      destruct (Str.is_empty (or_empty (attr_get "data-original-content" (attributes el))));
      simpl; try reflexivity;
      apply attr_get_set_other; intros <-; contradiction.
  - unfold translate_inline. rewrite Hflag. reflexivity.
Qed.




End Rescan.





(* ================================================================== *)
(** ** The variables of a template *)

Lemma obj_get_set_same k v o : obj_get k (obj_set k v o) = Some v.
Proof.
  induction o as [|[n w] rest IH]; simpl.
  - rewrite String.eqb_refl. reflexivity.
  - destruct (String.eqb k n) eqn:E; simpl; rewrite E; [reflexivity | exact IH].
Qed.

Lemma obj_get_set_other k other v o :
  k <> other -> obj_get k (obj_set other v o) = obj_get k o.
Proof.
  intros Hne. apply String.eqb_neq in Hne.
  induction o as [|[n w] rest IH]; simpl.
  - rewrite Hne. reflexivity.
  - destruct (String.eqb other n) eqn:E; simpl.
    + apply String.eqb_eq in E. subst n. rewrite Hne. reflexivity.
    + rewrite IH. reflexivity.
Qed.

Lemma strip_prefix_some p : forall s r,
  Str.strip_prefix p s = Some r -> s = p ++ r.
Proof.
  induction p as [|a p IH]; intros s r; simpl.
  - intros [= ->]. reflexivity.
  - destruct s as [|b s]; [discriminate|].
    destruct (Ascii.eqb a b) eqn:E; [|discriminate].
    apply Ascii.eqb_eq in E. subst b. intros Hr. rewrite (IH s r Hr). reflexivity.
Qed.

Lemma append_injective p a b : p ++ a = p ++ b -> a = b.
Proof. induction p as [|c p IH]; simpl; [auto | intros [= Hr]; auto]. Qed.

Lemma attr_get_absent name attrs :
  ~ In name (map fst attrs) -> attr_get name attrs = None.
Proof.
  induction attrs as [|[n v] rest IH]; simpl; [reflexivity|].
  intros Hin. destruct (String.eqb n name) eqn:E.
  - apply String.eqb_eq in E. exfalso. apply Hin. left. exact E.
  - apply IH. intros Hr. apply Hin. right. exact Hr.
Qed.

Lemma template_variables_lookup name attrs : forall variables,
  name <> "__proto__" ->
  NoDup (map fst attrs) ->
  obj_get name (template_variables attrs variables)
  = match attr_get ("data-var-" ++ name) attrs with
    | Some v => Some v
    | None => obj_get name variables
    end.
Proof.
  intros variables Hname.
  revert variables. induction attrs as [|[n v] rest IH]; intros variables Hnodup;
    [reflexivity|].
  inversion Hnodup as [|? ? Hnotin Hrest]; subst.
  cbn [template_variables attr_get].
  destruct (Str.strip_prefix "data-var-" n) as [varName|] eqn:Hstrip.
  - apply strip_prefix_some in Hstrip. subst n.
    destruct (String.eqb varName name) eqn:Hv.
    + apply String.eqb_eq in Hv. subst varName.
      rewrite String.eqb_refl.
      apply String.eqb_neq in Hname. rewrite Hname.
      rewrite (IH _ Hrest), (attr_get_absent _ _ Hnotin).
      apply obj_get_set_same.
    + assert (Hdiff : String.eqb ("data-var-" ++ varName) ("data-var-" ++ name) = false).
      { apply String.eqb_neq. intros Heq. apply append_injective in Heq.
        subst. rewrite String.eqb_refl in Hv. discriminate. }
      rewrite Hdiff, (IH _ Hrest).
      destruct (attr_get ("data-var-" ++ name) rest); [reflexivity|].
      destruct (String.eqb varName "__proto__"); [reflexivity|].
      apply obj_get_set_other. intros <-. rewrite String.eqb_refl in Hv. discriminate.
  - assert (Hdiff : String.eqb n ("data-var-" ++ name) = false).
    { apply String.eqb_neq. intros ->.
      rewrite strip_prefix_append in Hstrip. discriminate. }
    rewrite Hdiff. apply IH, Hrest.
Qed.

Lemma template_variables_no_proto attrs : forall variables,
  obj_get "__proto__" variables = None ->
  obj_get "__proto__" (template_variables attrs variables) = None.
Proof.
  induction attrs as [|[n v] rest IH]; intros variables Hv; [exact Hv|].
  cbn [template_variables].
  destruct (Str.strip_prefix "data-var-" n) as [varName|]; [|apply IH, Hv].
  apply IH. destruct (String.eqb varName "__proto__") eqn:E; [exact Hv|].
  rewrite obj_get_set_other; [exact Hv|].
  intros <-. rewrite String.eqb_refl in E. discriminate.
Qed.

(** X14: the variables of a template element are its [data-var-]
    attributes: for an element whose attribute names are distinct, as they
    are in a document, the variable [name] has the value of the attribute
    [data-var-name] and is absent when the element has no such attribute;
    the one exception is the name [__proto__], which is never a variable. *)
Theorem parseTemplateVariables_lookup :
  forall (el : element) (name : string),
    (name <> "__proto__" -> NoDup (map fst (attributes el)) ->
     obj_get name (parseTemplateVariables el)
     = getAttribute ("data-var-" ++ name) el)
    /\ obj_get "__proto__" (parseTemplateVariables el) = None.
Proof.
  intros el name. split.
  - intros Hname Hnodup. unfold parseTemplateVariables, getAttribute.
    rewrite (template_variables_lookup name _ [] Hname Hnodup).
    destruct (attr_get ("data-var-" ++ name) (attributes el)); reflexivity.
  - apply template_variables_no_proto. reflexivity.
Qed.

Lemma parseTemplateVariables_lookup_witness :
  obj_get "name"
    (parseTemplateVariables
       {| tagName := "P"; input_type := "";
          attributes := [("data-translate-template", "main.welcome");
                         ("data-var-name", "Ana"); ("data-var-__proto__", "x")];
          innerHTML := "" |})
  = Some "Ana".
Proof.
  apply (proj1 (parseTemplateVariables_lookup
                  {| tagName := "P"; input_type := "";
                     attributes := [("data-translate-template", "main.welcome");
                                    ("data-var-name", "Ana");
                                    ("data-var-__proto__", "x")];
                     innerHTML := "" |} "name")).
  - discriminate.
  - repeat constructor; simpl; intuition discriminate.
Defined.

(* ================================================================== *)
(** ** The marker in the fragment *)

Lemma strip_prefix_extend p : forall u r w,
  Str.strip_prefix p u = Some r -> Str.strip_prefix p (u ++ w) = Some (r ++ w).
Proof.
  induction p as [|a p IH]; intros u r w; simpl.
  - intros [= ->]. reflexivity.
  - destruct u as [|b u]; [discriminate|]. simpl.
    destruct (Ascii.eqb a b); [apply IH | discriminate].
Qed.

Lemma strip_prefix_blocked p d : forall u s,
  has_char d p = false ->
  Str.strip_prefix p u = None -> Str.strip_prefix p (u ++ String d s) = None.
Proof.
  induction p as [|a p IH]; intros u s Hd; simpl; [discriminate|].
  simpl in Hd. apply orb_false_iff in Hd as [Had Hd].
  destruct u as [|b u]; simpl.
  - intros _. rewrite Had. reflexivity.
  - destruct (Ascii.eqb a b); [apply IH, Hd | reflexivity].
Qed.

(** A match of the marker does not reach over a [#] or [&]: whether one
    starts at the head of a string is not changed by what follows such a
    character. *)
Lemma lang_marker_at_local c u d s :
  Ascii.eqb d "#" || Ascii.eqb d "&" = true ->
  lang_marker_at (String c u) = None ->
  lang_marker_at (String c (u ++ String d s)) = None.
Proof.
  intros Hd. unfold lang_marker_at.
  destruct (Ascii.eqb c "#" || Ascii.eqb c "&"); [|reflexivity].
  assert (Hlow : lowercase d = false).
  { apply orb_true_iff in Hd as [Hd | Hd]; apply Ascii.eqb_eq in Hd; subst d;
      reflexivity. }
  destruct (Str.strip_prefix "lang=" u) as [r|] eqn:Hr.
  - rewrite (strip_prefix_extend _ _ _ (String d s) Hr).
    destruct r as [|x [|y r]]; simpl.
    + intros _. destruct s; rewrite ?Hlow; reflexivity.
    + intros _. rewrite Hlow, andb_false_r. reflexivity.
    + intros Hxy. exact Hxy.
  - intros _. rewrite strip_prefix_blocked; [reflexivity | | exact Hr].
    apply orb_true_iff in Hd as [Hd | Hd]; apply Ascii.eqb_eq in Hd; subst d;
      reflexivity.
Qed.

Lemma hash_match_after lead d s :
  Ascii.eqb d "#" || Ascii.eqb d "&" = true ->
  hash_match lead = None ->
  hash_match (lead ++ String d s) = hash_match (String d s).
Proof.
  intros Hd. induction lead as [|c lead IH]; [reflexivity|].
  cbn [hash_match].
  destruct (lang_marker_at (String c lead)) eqn:Hhere; [discriminate|].
  intros Hrest. change (String c lead ++ String d s)
    with (String c (lead ++ String d s)).
  cbn [hash_match]. rewrite (lang_marker_at_local c lead d s Hd Hhere).
  apply IH, Hrest.
Qed.

(** X15: the fragment is read up to its first [#lang=] or [&lang=]
    followed by two lower-case letters, and only those two letters count:
    when they are a supported code the language is that code, whatever
    comes after them ([#lang=english] selects [en]); when they are not, the
    fragment is passed over, later markers in it included. *)
Theorem detectLanguage_first_marker :
  forall (e : environment) (lead rest : string) (d x y : ascii),
    hash_match lead = None ->
    Ascii.eqb d "#" || Ascii.eqb d "&" = true ->
    lowercase x && lowercase y = true ->
    hash e = lead ++ String d ("lang=" ++ String x (String y rest)) ->
    detectLanguage e
    = if supported (String x (String y EmptyString))
      then String x (String y EmptyString) else from_query e.
Proof.
  intros e lead rest d x y Hlead Hd Hxy Hhash.
  unfold detectLanguage, hash_code. rewrite Hhash, (hash_match_after lead d _ Hd Hlead).
  assert (Hmatch : hash_match (String d ("lang=" ++ String x (String y rest)))
                   = Some (String x (String y EmptyString))).
  { cbn [hash_match]. unfold lang_marker_at. rewrite Hd.
    change (Str.strip_prefix "lang=" ("lang=" ++ String x (String y rest)))
      with (Some (String x (String y rest))).
    cbv iota. rewrite Hxy. reflexivity. }
  rewrite Hmatch. reflexivity.
Qed.

Lemma detectLanguage_first_marker_witness :
  detectLanguage long_marker = "en" /\ detectLanguage hidden_marker = "es".
Proof.
  split.
  - exact (eq_trans
             (detectLanguage_first_marker long_marker "#top" "glish" "&" "e" "n"
                eq_refl eq_refl eq_refl eq_refl)
             eq_refl).
  - exact (eq_trans
             (detectLanguage_first_marker hidden_marker "" "&lang=en" "#" "f" "r"
                eq_refl eq_refl eq_refl eq_refl)
             eq_refl).
Defined.

(* ================================================================== *)
(** ** Scanning with another table *)

Lemma attr_set_overwrite name v v' attrs :
  attr_set name v' (attr_set name v attrs) = attr_set name v' attrs.
Proof.
  induction attrs as [|[n w] rest IH]; simpl.
  - rewrite String.eqb_refl. reflexivity.
  - destruct (String.eqb n name) eqn:E; simpl; rewrite E.
    + reflexivity.
    + rewrite IH. reflexivity.
Qed.

Lemma for_each_fuse {A : Type} (f1 : A -> A) (f2 : A -> option A) (f3 : A -> A) l :
  option_map (map f3) (for_each f2 (map f1 l))
  = for_each (fun x => option_map f3 (f2 (f1 x))) l.
Proof.
  induction l as [|x l IH]; simpl; [reflexivity|].
  destruct (f2 (f1 x)) as [e|]; simpl; [|reflexivity].
  rewrite <- IH. destruct (for_each f2 (map f1 l)); reflexivity.
Qed.

Lemma autoTranslateElements_by_element H B t d :
  autoTranslateElements H B t d
  = option_map (fun els => with_elements els d)
      (for_each (scan_element H B t) (elements d)).
Proof.
  unfold autoTranslateElements, scan_element. rewrite <- for_each_fuse. simpl.
  destruct (for_each (translate_template H B t)
              (map (translate_data_attribute H B t) (elements d))); reflexivity.
Qed.

Lemma for_each_same {A : Type} (f : A -> option A) l l' :
  Forall2 (fun x y => f y = f x) l l' -> for_each f l' = for_each f l.
Proof.
  induction 1 as [|x y l l' Hxy _ IH]; simpl; [reflexivity|].
  rewrite Hxy, IH. reflexivity.
Qed.

Ltac scan_step :=
  repeat (cbn [attributes tagName input_type innerHTML];
          rewrite ?(attr_get_set_other "placeholder") by discriminate;
          rewrite ?template_variables_attr_set by reflexivity;
          repeat match goal with
                 | E : ?l = _ |- context [?l] => rewrite E
                 end).

Section TwoTables.

Variables (H : html) (B : builtins) (t1 t2 : json).

(** The inline scan starts from the stored original, not from what an
    earlier scan wrote: after a scan with one table, a scan with another
    gives what it gives on the element as it was. *)
Lemma translate_inline_other_table el :
  translate_inline H B t2 (translate_inline H B t1 el)
  = translate_inline H B t2 el.
Proof.
  destruct (hasAttribute "data-translate-inline" el) eqn:Hflag.
  2:{ unfold translate_inline at 2. rewrite Hflag. reflexivity. }
  pose proof (translate_inline_keeps_flag H B t1 el) as Hkeep. rewrite Hflag in Hkeep.
  rewrite (translate_inline_cases H B t2 _ Hkeep), (translate_inline_cases H B t2 el Hflag).
  cbv zeta.
  rewrite (translate_inline_cases H B t1 el Hflag). cbv zeta.
  unfold original_of, getAttribute.
  destruct (attr_get "data-original-content" (attributes el)) as [s|] eqn:Hs;
    cbn [or_empty].
  - destruct (Str.is_empty s) eqn:He.
    + destruct (has_markers (innerHTML el)) eqn:Hm.
      * cbn [attributes with_content setAttribute innerHTML].
        rewrite attr_get_set_same. cbn [or_empty].
        rewrite (has_markers_not_empty _ Hm), Hm. reflexivity.
      * cbn [attributes with_content setAttribute innerHTML].
        rewrite attr_get_set_same. cbn [or_empty].
        destruct (Str.is_empty (innerHTML el)) eqn:Hh; rewrite Hm.
        -- unfold setAttribute. cbn [attributes innerHTML tagName input_type].
           rewrite attr_set_twice. reflexivity.
        -- reflexivity.
    + destruct (has_markers s) eqn:Hm.
      * cbn [attributes with_content innerHTML]. rewrite Hs. cbn [or_empty].
        rewrite He, Hm. reflexivity.
      * rewrite Hs. cbn [or_empty]. rewrite He, Hm. reflexivity.
  - cbn [Str.is_empty].
    destruct (has_markers (innerHTML el)) eqn:Hm.
    + cbn [attributes with_content setAttribute innerHTML].
      rewrite attr_get_set_same. cbn [or_empty].
      rewrite (has_markers_not_empty _ Hm), Hm. reflexivity.
    + cbn [attributes with_content setAttribute innerHTML].
      rewrite attr_get_set_same. cbn [or_empty].
      destruct (Str.is_empty (innerHTML el)) eqn:Hh; rewrite Hm.
      * unfold setAttribute. cbn [attributes innerHTML tagName input_type].
        rewrite attr_set_twice. reflexivity.
      * reflexivity.
Qed.

(** The first two methods write over what they wrote before. *)
Lemma data_template_other_table x y :
  translate_template H B t1 (translate_data_attribute H B t1 x) = Some y ->
  translate_template H B t2 (translate_data_attribute H B t2 y)
  = translate_template H B t2 (translate_data_attribute H B t2 x).
Proof.
  destruct x as [tag ty A h].
  unfold translate_template, translate_data_attribute, hasAttribute, getAttribute,
    set_placeholder, set_innerHTML, set_textContent, setAttribute, with_content,
    parseTemplateVariables.
  cbn [attributes tagName input_type innerHTML].
  destruct (attr_get "data-translate" A) as [key|] eqn:Hkey;
    destruct (String.eqb tag "INPUT" && String.eqb ty "text") eqn:Hinput;
    destruct (is_some (attr_get "data-translate-html" A)) eqn:Hhtml;
    destruct (attr_get "data-translate-template" A) as [tk|] eqn:Htk;
    scan_step;
    try (destruct (textWithVars B t1 (VStr tk) (template_variables A []) EmptyString);
         [|discriminate]);
    intros [= <-]; scan_step; rewrite ?attr_set_overwrite; reflexivity.
Qed.

End TwoTables.

Lemma for_each_Forall2 {A : Type} (f : A -> option A) l : forall l',
  for_each f l = Some l' -> Forall2 (fun x y => f x = Some y) l l'.
Proof.
  induction l as [|x l IH]; simpl; intros l'.
  - intros [= <-]. constructor.
  - destruct (f x) as [y|] eqn:Hx; [|discriminate].
    destruct (for_each f l) as [ys|]; [|discriminate].
    intros [= <-]. constructor; [exact Hx | apply IH; reflexivity].
Qed.

Lemma scan_element_other_table H B t1 t2 x y :
  inline_alone x = true ->
  scan_element H B t1 x = Some y ->
  scan_element H B t2 y = scan_element H B t2 x.
Proof.
  unfold inline_alone, scan_element. intros Halone.
  destruct (translate_template H B t1 (translate_data_attribute H B t1 x))
    as [e2|] eqn:He2; [|discriminate].
  simpl. intros [= <-].
  destruct (hasAttribute "data-translate-inline" x) eqn:Hflag.
  - simpl in Halone. apply andb_true_iff in Halone as [Hdata Htemplate].
    apply negb_true_iff in Hdata, Htemplate. unfold hasAttribute in Hdata, Htemplate.
    assert (Hx1 : forall t, translate_data_attribute H B t x = x).
    { intros t. unfold translate_data_attribute.
      destruct (getAttribute "data-translate" x); [discriminate | reflexivity]. }
    assert (Hx2 : forall t, translate_template H B t x = Some x).
    { intros t. unfold translate_template.
      destruct (getAttribute "data-translate-template" x); [discriminate | reflexivity]. }
    rewrite Hx1, Hx2 in He2. injection He2 as <-.
    rewrite Hx1, Hx2. simpl.
    assert (Hy1 : translate_data_attribute H B t2 (translate_inline H B t1 x)
                  = translate_inline H B t1 x).
    { unfold translate_data_attribute.
      rewrite (inline_attribute H B t1 "data-translate") by discriminate.
      destruct (getAttribute "data-translate" x); [discriminate | reflexivity]. }
    assert (Hy2 : translate_template H B t2 (translate_inline H B t1 x)
                  = Some (translate_inline H B t1 x)).
    { unfold translate_template.
      rewrite (inline_attribute H B t1 "data-translate-template") by discriminate.
      destruct (getAttribute "data-translate-template" x); [discriminate | reflexivity]. }
    rewrite Hy1, Hy2. simpl. rewrite translate_inline_other_table. reflexivity.
  - pose proof (translate_data_attribute_kept H B t1 x) as Hk1.
    pose proof (translate_template_kept H B t1 _ _ He2) as Hk2.
    destruct (kept_trans _ _ _ Hk1 Hk2) as (_ & _ & Hattr).
    assert (Hflag2 : hasAttribute "data-translate-inline" e2 = false).
    { unfold hasAttribute in *. rewrite Hattr by discriminate. exact Hflag. }
    assert (Hid : translate_inline H B t1 e2 = e2)
      by (unfold translate_inline; rewrite Hflag2; reflexivity).
    rewrite Hid, (data_template_other_table H B t1 t2 x e2 He2). reflexivity.
Qed.

(** In the list of elements, where no element carries the inline marker
    together with one of the other two, a scan with one table followed by a
    scan with another is the second scan from the start. *)
Lemma autoTranslateElements_other_table :
  forall (H : html) (B : builtins) (t1 t2 : json) (d d1 : document),
    forallb inline_alone (elements d) = true ->
    autoTranslateElements H B t1 d = Some d1 ->
    autoTranslateElements H B t2 d1 = autoTranslateElements H B t2 d.
Proof.
  intros H B t1 t2 d d1 Halone. rewrite !autoTranslateElements_by_element.
  destruct (for_each (scan_element H B t1) (elements d)) as [els1|] eqn:Hels;
    [|discriminate].
  simpl. intros [= <-]. simpl.
  assert (Hsame : for_each (scan_element H B t2) els1
                  = for_each (scan_element H B t2) (elements d)).
  { apply for_each_same. apply for_each_Forall2 in Hels.
    rewrite forallb_forall in Halone.
    revert Halone. induction Hels as [|x y l l' Hxy _ IH]; intros Halone;
      constructor.
    - apply (scan_element_other_table H B t1 t2 x y); [|exact Hxy].
      apply Halone. left. reflexivity.
    - apply IH. intros z Hz. apply Halone. right. exact Hz. }
  rewrite Hsame.
  destruct (for_each (scan_element H B t2) (elements d)); reflexivity.
Qed.

Lemma one_marker_inline_alone el : one_marker el = true -> inline_alone el = true.
Proof.
  unfold one_marker, inline_alone.
  destruct (hasAttribute "data-translate" el),
    (hasAttribute "data-translate-template" el),
    (hasAttribute "data-translate-inline" el); simpl; congruence.
Qed.

(** X16: on a page whose marked elements carry one marker each and lie
    side by side (the content of none of them holds a marked element, at the
    start, after the first scan and after the second scan alone: the page and
    the two tables put no marker inside a marked element), a scan with one
    table followed by a scan with another gives the page the second scan
    alone gives: nothing of the first table is left, as when the language is
    switched more than once. *)
Theorem autoTranslateElements_second_table :
  forall (H : html) (B : builtins) (t1 t2 : json) (d d1 d2 : document),
    forallb one_marker (elements d) = true ->
    forallb no_marker_inside (elements d) = true ->
    autoTranslateElements H B t1 d = Some d1 ->
    forallb no_marker_inside (elements d1) = true ->
    autoTranslateElements H B t2 d = Some d2 ->
    forallb no_marker_inside (elements d2) = true ->
    autoTranslateElements H B t2 d1 = Some d2.
Proof.
  intros H B t1 t2 d d1 d2 Hone _ Hfirst _ Hsecond _.
  rewrite <- Hsecond.
  apply (autoTranslateElements_other_table H B t1 t2 d d1); [|exact Hfirst].
  rewrite forallb_forall in Hone |- *.
  intros el Hel. apply one_marker_inline_alone, Hone, Hel.
Qed.

Lemma autoTranslateElements_second_table_witness :
  autoTranslateElements plain_html es2023 en_table
    (with_elements (elements (page after_switch_es)) sample_page)
  = Some sample_page_en.
Proof.
  apply (autoTranslateElements_second_table plain_html es2023 es_table en_table
           sample_page
           (with_elements (elements (page after_switch_es)) sample_page)
           sample_page_en);
    vm_compute; reflexivity.
Defined.

(** With both markers on one element the original the inline scan stores
    is the text of the first table, and a later scan with another table
    starts from it. *)
Example inline_with_data_translate_keeps_first_table :
  let greeting_en := JObj [("greeting", JStr "Hello {{name}}"); ("name", JStr "friend")] in
  let greeting_es := JObj [("greeting", JStr "Hola {{name}}"); ("name", JStr "amigo")] in
  let el := {| tagName := "P"; input_type := "";
               attributes := [("data-translate", "greeting");
                              ("data-translate-inline", "")];
               innerHTML := "" |} in
  option_map innerHTML (scan_element plain_html es2023 greeting_es el)
  = Some "Hola amigo"
  /\ match scan_element plain_html es2023 greeting_en el with
     | Some y => option_map innerHTML (scan_element plain_html es2023 greeting_es y)
     | None => None
     end = Some "Hello amigo".
Proof. vm_compute. split; reflexivity. Qed.
